(** * Pomodoro Focus: timer, task list and persistence of [App.js]

    A shallow embedding of the logic of [src/pomodoro_frontend/src/App.js]:
    the component state, the timer tick, the timer and task handlers, the
    load / persist effects over [localStorage], and what the timer panel
    and a task row compute.

    Conventions of the embedding.
    - A JavaScript number is a [num]: a rational (every binary64 value is
      one), [NaN] or one of the two infinities.  The sign of zero is not
      modelled.  Where a result need not be an integer it is rounded to
      binary64 by [round64]: the reading of a numeric text, the division,
      and the arithmetic of the progress bar.  The handlers compute with
      integers (seconds, minutes, counts); their sums, differences and
      products are written exact, which is what binary64 gives as long as
      the result is an integer of magnitude up to 2^53 (lemma
      [exact_on_integers]).
    - A JavaScript string is a [string] whose characters stand for the code
      units below 256.
    - A task is a flat object: a finite map from property names to
      primitive values ([gmap string prim]); a property that is absent
      reads as [undefined].  The task list is a list of such objects;
      arrays of anything else are outside the embedding.  A record read
      from the storage maps property names to [jvalue]s, which are
      primitive or nested.
    - A text held by [localStorage] is represented by what [JSON.parse]
      makes of it (see [text]), and [JSON.stringify] by the text that
      parses to the value it was given, less what JSON cannot hold.
    - A handler, the tick and an effect run against the state of the
      latest render, and the setters they call are applied together: each
      is a function from the state before to the state after. *)

From Stdlib Require Import ZArith QArith Qround Qcanon Qpower Lia Lqa Bool List Ascii String.
From stdpp Require Import base option list gmap strings pretty.

Import ListNotations.
Local Open Scope Z_scope.

(** ** Numbers *)

Module Num.

Inductive num : Type :=
| Fin (q : Q)
| NaN
| PInf
| NInf.

Definition of_Z (z : Z) : num := Fin (inject_Z z).

(** [Number.isFinite] on a value that is a number. *)
Definition is_finite (n : num) : bool :=
  match n with Fin _ => true | _ => false end.

Definition is_nan (n : num) : bool :=
  match n with NaN => true | _ => false end.

(** [a < b]; any comparison with [NaN] is false. *)
Definition ltb (a b : num) : bool :=
  match a, b with
  | NaN, _ | _, NaN => false
  | Fin x, Fin y => negb (Qle_bool y x)
  | Fin _, PInf => true
  | NInf, Fin _ => true
  | NInf, PInf => true
  | _, _ => false
  end.

(** [a > b] *)
Definition gtb (a b : num) : bool := ltb b a.

(** [a === b] on numbers: [NaN] differs from everything. *)
Definition eqb (a b : num) : bool :=
  match a, b with
  | Fin x, Fin y => Qeq_bool x y
  | PInf, PInf => true
  | NInf, NInf => true
  | _, _ => false
  end.

Definition opp (a : num) : num :=
  match a with
  | Fin x => Fin (Qred (- x))
  | NaN => NaN
  | PInf => NInf
  | NInf => PInf
  end.

(** [a + b] *)
Definition add (a b : num) : num :=
  match a, b with
  | NaN, _ | _, NaN => NaN
  | Fin x, Fin y => Fin (Qred (x + y))
  | PInf, NInf | NInf, PInf => NaN
  | PInf, _ | _, PInf => PInf
  | NInf, _ | _, NInf => NInf
  end.

(** [a - b] *)
Definition sub (a b : num) : num := add a (opp b).

(** The sign of a number that is not [NaN]: -1, 0 or 1. *)
Definition sign (a : num) : Z :=
  match a with
  | Fin x => Z.sgn (Qnum x)
  | PInf => 1
  | NInf => -1
  | NaN => 0
  end.

(** [a * b] *)
Definition mul (a b : num) : num :=
  match a, b with
  | NaN, _ | _, NaN => NaN
  | Fin x, Fin y => Fin (Qred (x * y))
  | _, _ =>
      match (sign a * sign b)%Z with
      | Z0 => NaN
      | Zpos _ => PInf
      | Zneg _ => NInf
      end
  end.

(** [Math.floor] *)
Definition floor (a : num) : num :=
  match a with
  | Fin x => of_Z (Qfloor x)
  | _ => a
  end.

(** [Math.min(a, b)] and [Math.max(a, b)]: [NaN] if either is. *)
Definition min (a b : num) : num :=
  match a, b with
  | NaN, _ | _, NaN => NaN
  | _, _ => if ltb b a then b else a
  end.

Definition max (a b : num) : num :=
  match a, b with
  | NaN, _ | _, NaN => NaN
  | _, _ => if ltb a b then b else a
  end.

(** A number is a non-negative integer. *)
Definition is_nat (a : num) : Prop :=
  exists z : Z, (0 <= z)%Z /\ a = of_Z z.

(** *** Rounding to binary64

    The Number values are the binary64 values: the rationals [m * 2 ^ e]
    with [|m| < 2 ^ 53] and [e] from -1074 to 971. *)
Definition binary64 (q : Q) : Prop :=
  exists m e : Z,
    (Z.abs m < 2 ^ 53)%Z /\ (-1074 <= e <= 971)%Z /\ (q == inject_Z m * 2 ^ e)%Q.

(** The nearest integer, a half going to the even one. *)
Definition round_half_even (x : Q) : Z :=
  let f := Qfloor x in
  match (x - inject_Z f ?= 1 # 2)%Q with
  | Lt => f
  | Gt => (f + 1)%Z
  | Eq => if Z.even f then f else (f + 1)%Z
  end.

(** The [e] with [2 ^ e <= x < 2 ^ (e + 1)], for [x > 0]. *)
Definition binade (x : Q) : Z :=
  let e0 := (Z.log2 (Qnum x) - Z.log2 (Zpos (Qden x)))%Z in
  if Qle_bool (2 ^ e0) x then e0 else (e0 - 1)%Z.

(** The exponent of the binary64 format for [x > 0] (-1022 for the
    subnormal numbers), and the significand of 53 bits that [x] rounds to. *)
Definition exponent (x : Q) : Z := Z.max (binade x) (-1022).

Definition mantissa (x : Q) : Z :=
  round_half_even (x * 2 ^ (52 - exponent x)).

Definition round64_pos (x : Q) : num :=
  let y := (inject_Z (mantissa x) * 2 ^ (exponent x - 52))%Q in
  if Qle_bool (2 ^ 1024) y then PInf else Fin (Qred y).

(** The Number value for a real number: the nearest binary64 value, a tie
    going to the even significand, and an infinity where the nearest
    number of 53 bits is [2 ^ 1024] or more. *)
Definition round64 (x : Q) : num :=
  match Qnum x with
  | Z0 => Fin 0
  | Zpos _ => round64_pos x
  | Zneg _ => opp (round64_pos (- x))
  end.

Definition rounded (a : num) : num :=
  match a with
  | Fin q => round64 q
  | _ => a
  end.

End Num.
Export Num.

(** ** Strings *)

Module Str.

Definition code (c : ascii) : N := N_of_ascii c.

(** The white space and line terminator code units below 256: TAB, LF,
    VT, FF, CR, SP and NBSP. *)
Definition is_space (c : ascii) : bool :=
  let n := code c in
  (N.leb 9 n && N.leb n 13) || N.eqb n 32 || N.eqb n 160.

Fixpoint trim_start (s : string) : string :=
  match s with
  | EmptyString => EmptyString
  | String c r => if is_space c then trim_start r else s
  end.

Fixpoint trim_end (s : string) : string :=
  match s with
  | EmptyString => EmptyString
  | String c r =>
      match trim_end r with
      | EmptyString => if is_space c then EmptyString else String c EmptyString
      | r' => String c r'
      end
  end.

(** [s.trim()] *)
Definition trim (s : string) : string := trim_end (trim_start s).

Definition is_empty (s : string) : bool :=
  match s with EmptyString => true | _ => false end.

(** The value of a digit in a radix up to 16, if the character is one. *)
Definition digit_of (radix : Z) (c : ascii) : option Z :=
  let n := Z.of_N (code c) in
  let d :=
    if (48 <=? n) && (n <=? 57) then n - 48
    else if (97 <=? n) && (n <=? 102) then n - 87
    else if (65 <=? n) && (n <=? 70) then n - 55
    else radix in
  if d <? radix then Some d else None.

(** The longest prefix of digits of [s], most significant first, and the rest. *)
Fixpoint take_digits (radix : Z) (s : list ascii) : list Z * list ascii :=
  match s with
  | [] => ([], [])
  | c :: r =>
      match digit_of radix c with
      | Some d => let '(ds, r') := take_digits radix r in (d :: ds, r')
      | None => ([], s)
      end
  end.

Definition digits_value (radix : Z) (ds : list Z) : Z :=
  fold_left (fun acc d => radix * acc + d) ds 0.

(** The Number value for [m * 10 ^ k]. *)
Definition scale10 (m k : Z) : num :=
  round64 (if 0 <=? k then inject_Z (m * 10 ^ k)
           else Qmake m (Z.to_pos (10 ^ (- k)))).

(** ExponentPart, or nothing, up to the end of the text. *)
Definition parse_exponent (s : list ascii) : option Z :=
  match s with
  | [] => Some 0
  | c :: r =>
      if Ascii.eqb c "e" || Ascii.eqb c "E" then
        let '(neg, r1) :=
          match r with
          | s1 :: r1 =>
              if Ascii.eqb s1 "-" then (true, r1)
              else if Ascii.eqb s1 "+" then (false, r1)
              else (false, r)
          | [] => (false, r)
          end in
        match take_digits 10 r1 with
        | ((_ :: _) as ds, []) =>
            let e := digits_value 10 ds in Some (if neg then - e else e)
        | _ => None
        end
      else None
  end.

Definition Infinity_text : list ascii := list_ascii_of_string "Infinity".

(** StrUnsignedDecimalLiteral *)
Definition parse_unsigned_decimal (s : list ascii) : option num :=
  if decide (s = Infinity_text) then Some PInf
  else
    let '(ip, r1) := take_digits 10 s in
    match r1 with
    | c :: r2 =>
        if Ascii.eqb c "." then
          let '(fp, r3) := take_digits 10 r2 in
          match ip, fp with
          | [], [] => None
          | _, _ =>
              match parse_exponent r3 with
              | Some e =>
                  Some (scale10 (digits_value 10 (ip ++ fp)) (e - Z.of_nat (length fp)))
              | None => None
              end
          end
        else
          match ip, parse_exponent r1 with
          | _ :: _, Some e => Some (scale10 (digits_value 10 ip) e)
          | _, _ => None
          end
    | [] =>
        match ip with
        | [] => None
        | _ => Some (scale10 (digits_value 10 ip) 0)
        end
    end.

(** NonDecimalIntegerLiteral: 0b, 0o, 0x and their capitals. *)
Definition parse_non_decimal (s : list ascii) : option num :=
  match s with
  | z :: x :: r =>
      let radix :=
        if Ascii.eqb x "x" || Ascii.eqb x "X" then Some 16
        else if Ascii.eqb x "o" || Ascii.eqb x "O" then Some 8
        else if Ascii.eqb x "b" || Ascii.eqb x "B" then Some 2
        else None in
      match Ascii.eqb z "0", radix with
      | true, Some rd =>
          match take_digits rd r with
          | ((_ :: _) as ds, []) => Some (round64 (inject_Z (digits_value rd ds)))
          | _ => None
          end
      | _, _ => None
      end
  | _ => None
  end.

(** StringToNumber of the language specification: the mathematical value
    of the literal, rounded to the nearest Number value as the engines
    do (the specification lets an implementation drop the digits after
    the twentieth). *)
Definition StringToNumber (s : string) : num :=
  match list_ascii_of_string (trim s) with
  | [] => of_Z 0
  | (c :: r) as t =>
      match parse_non_decimal t with
      | Some n => n
      | None =>
          let signed :=
            if Ascii.eqb c "-" then option_map opp (parse_unsigned_decimal r)
            else if Ascii.eqb c "+" then parse_unsigned_decimal r
            else parse_unsigned_decimal t in
          match signed with
          | Some n => n
          | None => NaN
          end
      end
  end.

End Str.
Export Str.

(** ** Primitive values and flat objects *)

Module JS.

Inductive prim : Type :=
| PUndef
| PNull
| PBool (b : bool)
| PNum (n : num)
| PStr (s : string).

(** ToBoolean *)
Definition truthy (v : prim) : bool :=
  match v with
  | PUndef | PNull => false
  | PBool b => b
  | PNum (Fin q) => negb (Qeq_bool q 0)
  | PNum NaN => false
  | PNum _ => true
  | PStr s => negb (is_empty s)
  end.

(** [a || b] *)
Definition js_or (a b : prim) : prim := if truthy a then a else b.

(** [a === b] on primitive values. *)
Definition strict_eq (a b : prim) : bool :=
  match a, b with
  | PUndef, PUndef => true
  | PNull, PNull => true
  | PBool x, PBool y => Bool.eqb x y
  | PNum x, PNum y => Num.eqb x y
  | PStr x, PStr y => String.eqb x y
  | _, _ => false
  end.

(** [Number(v)] *)
Definition Number (v : prim) : num :=
  match v with
  | PUndef => NaN
  | PNull => of_Z 0
  | PBool b => if b then of_Z 1 else of_Z 0
  | PNum n => n
  | PStr s => StringToNumber s
  end.

(** [v + 1]: concatenation when [v] is a string, addition otherwise. *)
Definition plus_one (v : prim) : prim :=
  match v with
  | PStr s => PStr (s ++ "1")
  | _ => PNum (add (Number v) (of_Z 1))
  end.

(** [o.k]: a property that is absent reads as [undefined]. *)
Definition get (o : gmap string prim) (k : string) : prim :=
  default PUndef (o !! k).

(** What [JSON.stringify] keeps of a property value: a property holding
    [undefined] is left out, a number that is not finite becomes [null]. *)
Definition json_prop (v : prim) : option prim :=
  match v with
  | PUndef => None
  | PNum n => if is_finite n then Some v else Some PNull
  | _ => Some v
  end.

(** An object after [JSON.stringify] and [JSON.parse]. *)
Definition json_obj (o : gmap string prim) : gmap string prim :=
  omap json_prop o.

(** A property value of a record that [JSON.parse] returned: a primitive
    value, or a nested object or array.  Of a nested value the program
    uses nothing but its conversion to a primitive, inside [Number]: it is
    represented by the string that the conversion gives (the text of
    [Object.prototype.toString] for an object, the elements joined by
    commas for an array), or by [None] when the conversion throws a
    TypeError, as it does for an object with a property named [toString],
    which hides the method of the prototype behind a value that is not a
    function. *)
Inductive jvalue : Type :=
| VPrim (p : prim)
| VNested (toPrimitive : option string).

(** ToBoolean and [a || b] on property values: a nested value is truthy. *)
Definition value_truthy (v : jvalue) : bool :=
  match v with
  | VPrim p => truthy p
  | VNested _ => true
  end.

Definition value_or (a : jvalue) (b : prim) : jvalue :=
  if value_truthy a then a else VPrim b.

(** [Number(v)] of a property value, [None] standing for the TypeError. *)
Definition converted (v : jvalue) : option num :=
  match v with
  | VPrim p => Some (Number p)
  | VNested (Some s) => Some (StringToNumber s)
  | VNested None => None
  end.

(** The number that [v] is when [Number.isFinite(v)] holds. *)
Definition finite_number (v : jvalue) : option num :=
  match v with
  | VPrim (PNum n) => if is_finite n then Some n else None
  | _ => None
  end.

(** [o.k] of a record. *)
Definition get_value (o : gmap string jvalue) (k : string) : jvalue :=
  default (VPrim PUndef) (o !! k).

(** What [JSON.parse] returns, for the documents of this program: a
    primitive, an object (the settings and the timer state), or an array
    of flat objects (the tasks).  A number in it is the Number value of
    its literal, [round64] of what the literal writes. *)
Inductive json : Type :=
| JPrim (p : prim)
| JObj (o : gmap string jvalue)
| JArr (l : list (gmap string prim)).

(** A text kept by [localStorage], by what [JSON.parse] makes of it:
    the empty text (falsy), a text it rejects with a SyntaxError, or a
    text it accepts. *)
Inductive text : Type :=
| TEmpty
| TGarbage
| TJson (d : json).

(** [JSON.stringify] of an object, and of an array of objects. *)
Definition JSON_stringify_obj (o : gmap string prim) : text :=
  TJson (JObj (VPrim <$> json_obj o)).

Definition JSON_stringify_arr (l : list (gmap string prim)) : text :=
  TJson (JArr (map json_obj l)).

(** [localStorage.getItem(k) || dflt], where [getItem] gives [null] for
    a key that is absent. *)
Definition getItem_or (ls : gmap string text) (k : string) (dflt : json) : text :=
  match ls !! k with
  | None | Some TEmpty => TJson dflt
  | Some t => t
  end.

End JS.
Export JS.

Abbreviation obj := (gmap string prim).
Abbreviation storage := (gmap string text).

(** ** Component state *)

(** Constants for default durations (in seconds) *)
Definition DEFAULT_WORK : num := of_Z (25 * 60).
Definition DEFAULT_BREAK : num := of_Z (5 * 60).

(** Keys for localStorage *)
Module LS_KEYS.
Definition tasks : string := "pomodoro_tasks".
Definition settings : string := "pomodoro_settings".
Definition state : string := "pomodoro_state".
End LS_KEYS.

(** The [useState] cells of [App] that the timer and the task list use
    (the theme is left out). *)
Record state : Type := mkState {
  isRunning : bool;
  isWorkSession : bool;
  workDuration : num;
  breakDuration : num;
  remaining : num;
  tasks : list obj;
  taskInput : string;
  selectedTaskId : prim
}.

(** The initial values given to [useState]. *)
Definition initial_state : state :=
  {| isRunning := false;
     isWorkSession := true;
     workDuration := DEFAULT_WORK;
     breakDuration := DEFAULT_BREAK;
     remaining := DEFAULT_WORK;
     tasks := [];
     taskInput := "";
     selectedTaskId := PNull |}.

Definition setIsRunning (b : bool) (s : state) : state :=
  mkState b (isWorkSession s) (workDuration s) (breakDuration s)
          (remaining s) (tasks s) (taskInput s) (selectedTaskId s).

Definition setIsWorkSession (b : bool) (s : state) : state :=
  mkState (isRunning s) b (workDuration s) (breakDuration s)
          (remaining s) (tasks s) (taskInput s) (selectedTaskId s).

Definition setWorkDuration (n : num) (s : state) : state :=
  mkState (isRunning s) (isWorkSession s) n (breakDuration s)
          (remaining s) (tasks s) (taskInput s) (selectedTaskId s).

Definition setBreakDuration (n : num) (s : state) : state :=
  mkState (isRunning s) (isWorkSession s) (workDuration s) n
          (remaining s) (tasks s) (taskInput s) (selectedTaskId s).

Definition setRemaining (n : num) (s : state) : state :=
  mkState (isRunning s) (isWorkSession s) (workDuration s) (breakDuration s)
          n (tasks s) (taskInput s) (selectedTaskId s).

Definition setTasks (l : list obj) (s : state) : state :=
  mkState (isRunning s) (isWorkSession s) (workDuration s) (breakDuration s)
          (remaining s) l (taskInput s) (selectedTaskId s).

Definition setTaskInput (i : string) (s : state) : state :=
  mkState (isRunning s) (isWorkSession s) (workDuration s) (breakDuration s)
          (remaining s) (tasks s) i (selectedTaskId s).

Definition setSelectedTaskId (v : prim) (s : state) : state :=
  mkState (isRunning s) (isWorkSession s) (workDuration s) (breakDuration s)
          (remaining s) (tasks s) (taskInput s) v.

(** ** Effects that may throw

    The body of an effect runs a sequence of [setX] calls and may throw
    part-way (a SyntaxError of [JSON.parse], a TypeError of a property
    read on [null] or of [Number] on an object without a primitive
    value); the calls made before the throw keep their effect. *)

Module Eff.

Inductive outcome (A : Type) : Type :=
| Ret (a : A) (s : state)
| Throw (s : state).
Arguments Ret {A} a s.
Arguments Throw {A} s.

Definition M (A : Type) : Type := state -> outcome A.

Definition ret {A} (a : A) : M A := fun s => Ret a s.

Definition bind {A B} (m : M A) (k : A -> M B) : M B :=
  fun s => match m s with
           | Ret a s' => k a s'
           | Throw s' => Throw s'
           end.

Definition throw {A} : M A := fun s => Throw s.

(** [try { body } catch { handler }] *)
Definition try_catch (body handler : M unit) : M unit :=
  fun s => match body s with
           | Ret a s' => Ret a s'
           | Throw s' => handler s'
           end.

(** A call of a state setter. *)
Definition call (f : state -> state) : M unit := fun s => Ret tt (f s).

(** The state an effect leaves behind. *)
Definition final {A} (o : outcome A) : state :=
  match o with Ret _ s => s | Throw s => s end.

End Eff.
Export Eff.

#[global] Instance M_ret : MRet M := @ret.
#[global] Instance M_bind : MBind M := fun A B k m => bind m k.

(** [JSON.parse(t)] *)
Definition JSON_parse (t : text) : M json :=
  match t with
  | TJson d => ret d
  | TEmpty | TGarbage => throw
  end.

(** [d.k] for a value that [JSON.parse] returned and a key that is neither
    an index nor [length]: a TypeError on [null] (and [undefined]),
    [undefined] on the other primitives and on arrays. *)
Definition prop (d : json) (k : string) : M jvalue :=
  match d with
  | JPrim PNull | JPrim PUndef => throw
  | JPrim _ => ret (VPrim PUndef)
  | JObj o => ret (get_value o k)
  | JArr _ => ret (VPrim PUndef)
  end.

(** [Number(v)] of a property value: the conversion of a nested value to
    a primitive can throw. *)
Definition Number_of (v : jvalue) : M num :=
  match converted v with
  | Some n => ret n
  | None => throw
  end.

(** Effects: Load persisted state *)
Definition load_body (ls : storage) : M unit :=
  savedTasks ← JSON_parse (getItem_or ls LS_KEYS.tasks (JArr []));
  match savedTasks with
  | JArr l => call (setTasks l)
  | _ => ret tt
  end ;;
  savedSettings ← JSON_parse (getItem_or ls LS_KEYS.settings (JObj ∅));
  savedWork ← prop savedSettings "workDuration";
  wd ← Number_of (value_or savedWork (PNum DEFAULT_WORK));
  savedBreak ← prop savedSettings "breakDuration";
  bd ← Number_of (value_or savedBreak (PNum DEFAULT_BREAK));
  call (setWorkDuration (if is_finite wd then wd else DEFAULT_WORK)) ;;
  call (setBreakDuration (if is_finite bd then bd else DEFAULT_BREAK)) ;;
  savedState ← JSON_parse (getItem_or ls LS_KEYS.state (JObj ∅));
  savedIsWork ← prop savedState "isWorkSession";
  match savedIsWork with
  | VPrim (PBool b) => call (setIsWorkSession b)
  | _ => ret tt
  end ;;
  savedRemaining ← prop savedState "remaining";
  match finite_number savedRemaining with
  | Some n => call (setRemaining n)
  | None => call (setRemaining (if value_truthy savedIsWork then wd else bd))
  end.

(** On any parse error, fallback to defaults *)
Definition load_catch : M unit :=
  call (setWorkDuration DEFAULT_WORK) ;;
  call (setBreakDuration DEFAULT_BREAK) ;;
  call (setRemaining DEFAULT_WORK).

Definition load_effect (ls : storage) : M unit :=
  try_catch (load_body ls) load_catch.

Definition load (ls : storage) (s : state) : state :=
  final (load_effect ls s).

(** Effects: Persist settings and state *)
Definition persist_settings (s : state) (ls : storage) : storage :=
  let data : obj :=
    <["workDuration" := PNum (workDuration s)]>
      (<["breakDuration" := PNum (breakDuration s)]> ∅) in
  <[LS_KEYS.settings := JSON_stringify_obj data]> ls.

Definition persist_state (s : state) (ls : storage) : storage :=
  let data : obj :=
    <["isWorkSession" := PBool (isWorkSession s)]>
      (<["remaining" := PNum (remaining s)]> ∅) in
  <[LS_KEYS.state := JSON_stringify_obj data]> ls.

Definition persist_tasks (s : state) (ls : storage) : storage :=
  <[LS_KEYS.tasks := JSON_stringify_arr (tasks s)]> ls.

(** The three persist effects, run after a render in which all of
    settings, timer state and tasks changed. *)
Definition persist (s : state) (ls : storage) : storage :=
  persist_tasks s (persist_state s (persist_settings s ls)).

(** ** Timer *)

(** One task of the list as the tick sees it: a task whose id is the
    selected one gets one more pomodoro. *)
Definition credit (selected : prim) (t : obj) : obj :=
  if strict_eq (get t "id") selected
  then <["pomodoros" := plus_one (js_or (get t "pomodoros") (PNum (of_Z 0)))]> t
  else t.

(** The callback given to [setInterval]: the [setRemaining] updater, with
    the [setTasks] and [setIsWorkSession] calls it makes. *)
Definition tick_callback (s : state) : state :=
  let prev := remaining s in
  if gtb prev (of_Z 0) then setRemaining (sub prev (of_Z 1)) s
  else
    (* Session complete: auto-switch *)
    let nextIsWork := negb (isWorkSession s) in
    let nextRemaining := if nextIsWork then workDuration s else breakDuration s in
    (* mark progress on selected task when a work session ends *)
    let s1 :=
      if isWorkSession s && truthy (selectedTaskId s)
      then setTasks (map (credit (selectedTaskId s)) (tasks s)) s
      else s in
    setRemaining nextRemaining (setIsWorkSession nextIsWork s1).

(** The interval exists only while [isRunning]. *)
Definition tick (s : state) : state :=
  if isRunning s then tick_callback s else s.

Definition startPause (s : state) : state :=
  setIsRunning (negb (isRunning s)) s.

Definition resetTimer (s : state) : state :=
  setRemaining (if isWorkSession s then workDuration s else breakDuration s)
               (setIsRunning false s).

Definition switchSession (s : state) : state :=
  let s1 := setIsRunning false s in
  let next := negb (isWorkSession s1) in
  setIsWorkSession next
    (setRemaining (if next then workDuration s else breakDuration s) s1).

(** The two mode buttons, Focus and Break. *)
Definition selectFocus (s : state) : state :=
  setRemaining (workDuration s) (setIsWorkSession true (setIsRunning false s)).

Definition selectBreak (s : state) : state :=
  setRemaining (breakDuration s) (setIsWorkSession false (setIsRunning false s)).

Definition updateDurations (newWorkMin newBreakMin : num) (s : state) : state :=
  let w := mul (Num.max (of_Z 1) (Num.min (of_Z 180) (floor newWorkMin))) (of_Z 60) in
  let b := mul (Num.max (of_Z 1) (Num.min (of_Z 60) (floor newBreakMin))) (of_Z 60) in
  (* Reset current remaining to reflect current session with new duration *)
  setRemaining (if isWorkSession s then w else b)
               (setBreakDuration b (setWorkDuration w s)).

(** ** Tasks *)

(** What [addTask] needs of the platform: the value [crypto.randomUUID()]
    returns when the function exists, and the value of [Date.now()]. *)
Record env : Type := mkEnv {
  randomUUID : option string;
  Date_now : Z
}.

(** [crypto.randomUUID ? crypto.randomUUID() : String(Date.now())] *)
Definition new_id (e : env) : string :=
  match randomUUID e with
  | Some u => u
  | None => pretty (Date_now e)
  end.

Definition addTask (e : env) (s : state) : state :=
  let name := trim (taskInput s) in
  if is_empty name then s
  else
    let newTask : obj :=
      <["id" := PStr (new_id e)]>
        (<["name" := PStr name]>
           (<["done" := PBool false]>
              (<["pomodoros" := PNum (of_Z 0)]> ∅))) in
    let s1 := setTaskInput "" (setTasks (newTask :: tasks s) s) in
    if negb (truthy (selectedTaskId s))
    then setSelectedTaskId (get newTask "id") s1
    else s1.

Definition toggleTaskDone (id : prim) (s : state) : state :=
  setTasks
    (map (fun t => if strict_eq (get t "id") id
                   then <["done" := PBool (negb (truthy (get t "done")))]> t
                   else t)
         (tasks s))
    s.

Definition deleteTask (id : prim) (s : state) : state :=
  let s1 := setTasks (List.filter (fun t => negb (strict_eq (get t "id") id)) (tasks s)) s in
  if strict_eq (selectedTaskId s) id then setSelectedTaskId PNull s1 else s1.

Definition editTaskName (id : prim) (name : prim) (s : state) : state :=
  setTasks
    (map (fun t => if strict_eq (get t "id") id then <["name" := name]> t else t)
         (tasks s))
    s.

Definition selectTask (id : prim) (s : state) : state :=
  setSelectedTaskId id s.

(** * Vocabulary of the properties

    The notions that the statements below are written in, and the sample
    states and storages that they are tried on. *)

(** The duration configured for the session kind that is not the current one. *)
Definition other_duration (s : state) : num :=
  if isWorkSession s then breakDuration s else workDuration s.

(** [s'] is in the other session kind than [s], at that kind's full duration. *)
Definition switched (s s' : state) : Prop :=
  remaining s' = other_duration s /\ isWorkSession s' = negb (isWorkSession s).


(** A running work session of the default settings with one second left. *)
Definition about_to_end : state :=
  setRemaining (of_Z 1) (setIsRunning true initial_state).

(** A task as [addTask] builds it. *)
Definition mkTask (id name : string) (done : bool) (pomodoros : Z) : obj :=
  <["id" := PStr id]>
    (<["name" := PStr name]>
       (<["done" := PBool done]>
          (<["pomodoros" := PNum (of_Z pomodoros)]> ∅))).

(** A running work session that has reached zero, with two tasks, the
    second of which is selected. *)
Definition work_done : state :=
  {| isRunning := true;
     isWorkSession := true;
     workDuration := DEFAULT_WORK;
     breakDuration := DEFAULT_BREAK;
     remaining := of_Z 0;
     tasks := [mkTask "a" "Read" false 0; mkTask "b" "Write report" false 2];
     taskInput := "";
     selectedTaskId := PStr "b" |}.

(** The whole number of minutes that a request for [n] minutes is clamped
    to, in the range from [lo] to [hi]. *)
Definition clamped (lo hi : Z) (n : num) : Z :=
  match n with
  | Fin q => Z.max lo (Z.min hi (Qfloor q))
  | PInf => hi
  | NInf | NaN => lo
  end.

(** The ids of a list of tasks, in order. *)
Definition ids (l : list obj) : list prim := map (fun t => get t "id") l.

(** No task of the list has the id [id]. *)
Definition absent (id : prim) (l : list obj) : Prop :=
  forall t, In t l -> strict_eq (get t "id") id = false.

(** A platform with [crypto.randomUUID], and one without. *)
Definition secure_env : env :=
  {| randomUUID := Some "7f1c2d9e-0b6a-4c1e-9a57-3d2f8e4b6c10";
     Date_now := 1762113600000 |}.

Definition plain_env : env :=
  {| randomUUID := None; Date_now := 1762113600000 |}.

(** Two tasks added on a platform without [crypto.randomUUID], the
    second within the millisecond of the first. *)
Definition added_twice : state :=
  addTask plain_env
    (setTaskInput "Read"
       (addTask plain_env (setTaskInput "Write report" initial_state))).

(** The state in which the user has typed a task name, with one task
    already there and selected. *)
Definition typing : state :=
  setTaskInput "  Write report "
    (setSelectedTaskId (PStr "a")
       (setTasks [mkTask "a" "Read" true 3] initial_state)).

(** The document that the load reads for the key [k]: what the stored text
    parses to, [dflt] standing for a text that is absent or empty; [None]
    when [JSON.parse] throws. *)
Definition parsed (ls : storage) (k : string) (dflt : json) : option json :=
  match getItem_or ls k dflt with
  | TJson d => Some d
  | TEmpty | TGarbage => None
  end.

(** A document whose properties can be read: anything but [null]. *)
Definition readable (d : json) : bool :=
  match d with
  | JPrim PNull | JPrim PUndef => false
  | _ => true
  end.

(** [d.k] of a readable document. *)
Definition field (d : json) (k : string) : jvalue :=
  match d with
  | JObj o => get_value o k
  | _ => VPrim PUndef
  end.

(** The three texts parse, and neither the settings nor the timer state
    is [null]. *)
Definition well_parsed (ls : storage) : bool :=
  match parsed ls LS_KEYS.tasks (JArr []),
        parsed ls LS_KEYS.settings (JObj ∅),
        parsed ls LS_KEYS.state (JObj ∅) with
  | Some _, Some ds, Some dt => readable ds && readable dt
  | _, _, _ => false
  end.

(** [Number(v || dflt)], as the load computes [wd] and [bd]; [None] when
    the conversion throws. *)
Definition duration_read (v : jvalue) (dflt : num) : option num :=
  converted (value_or v (PNum dflt)).

(** The duration that the load stores: [Number.isFinite(n) ? n : dflt]. *)
Definition duration_kept (n dflt : num) : num :=
  if is_finite n then n else dflt.

(** A property value that [Number] converts without a TypeError. *)
Definition convertible (v : jvalue) : bool :=
  match v with
  | VNested None => false
  | _ => true
  end.

(** The load runs to its end, the error handler staying out of it: no
    record is malformed, and neither duration of the settings is an object
    without a primitive value. *)
Definition loadable (ls : storage) : bool :=
  well_parsed ls &&
  match parsed ls LS_KEYS.settings (JObj ∅) with
  | Some ds =>
      convertible (field ds "workDuration") && convertible (field ds "breakDuration")
  | None => false
  end.

(** The values that [||] passes over: a property that is missing, [null],
    [false], 0, [NaN] and the empty string. *)
Inductive falsy : jvalue -> Prop :=
| falsy_missing : falsy (VPrim PUndef)
| falsy_null : falsy (VPrim PNull)
| falsy_false : falsy (VPrim (PBool false))
| falsy_zero (q : Q) : (q == 0)%Q -> falsy (VPrim (PNum (Fin q)))
| falsy_NaN : falsy (VPrim (PNum NaN))
| falsy_empty : falsy (VPrim (PStr "")).

(** The duration that a stored field gives, the default being [dflt]: the
    default for a field that [||] passes over; otherwise the field as a
    number when that is finite (a number is itself, [true] is 1, a string
    is the number it writes, a nested value is the number that its text
    writes), and the default when it is not. *)
Inductive loaded_duration (dflt : num) : jvalue -> num -> Prop :=
| loaded_default (v : jvalue) :
    falsy v -> loaded_duration dflt v dflt
| loaded_number (q : Q) :
    ~ (q == 0)%Q -> loaded_duration dflt (VPrim (PNum (Fin q))) (Fin q)
| loaded_infinity (n : num) :
    n = PInf \/ n = NInf -> loaded_duration dflt (VPrim (PNum n)) dflt
| loaded_true :
    loaded_duration dflt (VPrim (PBool true)) (of_Z 1)
| loaded_text (t : string) (q : Q) :
    t <> "" -> StringToNumber t = Fin q ->
    loaded_duration dflt (VPrim (PStr t)) (Fin q)
| loaded_no_number (t : string) :
    t <> "" -> is_finite (StringToNumber t) = false ->
    loaded_duration dflt (VPrim (PStr t)) dflt
| loaded_nested (t : string) (q : Q) :
    StringToNumber t = Fin q ->
    loaded_duration dflt (VNested (Some t)) (Fin q)
| loaded_nested_no_number (t : string) :
    is_finite (StringToNumber t) = false ->
    loaded_duration dflt (VNested (Some t)) dflt.

(** The record of the key [k] is missing: no text, or the empty text. *)
Definition missing (ls : storage) (k : string) : Prop :=
  ls !! k = None \/ ls !! k = Some TEmpty.

(** A storage that holds only a settings record, of 10 and 2 minutes. *)
Definition stored_settings : storage :=
  {[ LS_KEYS.settings :=
       TJson (JObj (<["workDuration" := VPrim (PNum (of_Z 600))]>
                      (<["breakDuration" := VPrim (PNum (of_Z 120))]> ∅))) ]}.

(** A storage with the three records. *)
Definition stored_all : storage :=
  <[LS_KEYS.tasks := TJson (JArr [mkTask "a" "Read" true 3])]>
    (<[LS_KEYS.state :=
         TJson (JObj (<["isWorkSession" := VPrim (PBool false)]>
                        (<["remaining" := VPrim (PNum (of_Z 42))]> ∅)))]>
       stored_settings).

(** A storage whose settings were written by hand: the work duration as a
    text that overflows, the break duration as an array of one number. *)
Definition stored_by_hand : storage :=
  {[ LS_KEYS.settings :=
       TJson (JObj (<["workDuration" := VPrim (PStr "1e400")]>
                      (<["breakDuration" := VNested (Some "600")]> ∅))) ]}.

(** A storage whose break duration is an object with a property named
    [toString]. *)
Definition stored_unconvertible : storage :=
  {[ LS_KEYS.settings :=
       TJson (JObj (<["workDuration" := VPrim (PNum (of_Z 600))]>
                      (<["breakDuration" := VNested None]> ∅))) ]}.

(** What C3 asks of the tasks record in particular: whatever text is put
    in its place, the settings that the load brings into memory are the
    same. *)
Definition settings_load_whatever_tasks : Prop :=
  forall (ls : storage) (t : text),
    workDuration (load (<[LS_KEYS.tasks := t]> ls) initial_state)
      = workDuration (load ls initial_state) /\
    breakDuration (load (<[LS_KEYS.tasks := t]> ls) initial_state)
      = breakDuration (load ls initial_state).

(** A property value that [JSON.stringify] and [JSON.parse] give back as
    it is: anything but [undefined], [NaN] and the infinities. *)
Definition storable (v : prim) : Prop := json_prop v = Some v.

Definition storable_task (t : obj) : Prop :=
  forall k v, t !! k = Some v -> storable v.

(** A duration that the load accepts as it is: a finite number other than 0. *)
Definition accepted_duration (n : num) : Prop :=
  is_finite n = true /\ truthy (PNum n) = true.

(** A state of the data model, as far as persistence goes: durations that
    the load accepts, a finite remaining, and tasks whose property values
    are JSON values. *)
Definition persistable (s : state) : Prop :=
  accepted_duration (workDuration s) /\
  accepted_duration (breakDuration s) /\
  is_finite (remaining s) = true /\
  Forall storable_task (tasks s).

(** The state that is persisted in the example of the spec: 1500 and 300
    seconds, and a list of tasks. *)
Definition session : state :=
  {| isRunning := true;
     isWorkSession := false;
     workDuration := of_Z 1500;
     breakDuration := of_Z 300;
     remaining := of_Z 0;
     tasks := [mkTask "b" "Write report" false 2; mkTask "a" "Read" true 3];
     taskInput := "Plan";
     selectedTaskId := PStr "b" |}.

(** What can happen to the component: the load effect, a tick of the
    interval, and the handlers. *)
Inductive event : Type :=
| Load (ls : storage)
| Tick
| StartPause
| Reset
| Switch
| Focus
| Break
| UpdateDurations (newWorkMin newBreakMin : num)
| AddTask (e : env)
| ToggleDone (id : prim)
| Delete (id : prim)
| EditName (id name : prim)
| Select (id : prim)
| Typed (input : string).

Definition run (ev : event) (s : state) : state :=
  match ev with
  | Load ls => load ls s
  | Tick => tick s
  | StartPause => startPause s
  | Reset => resetTimer s
  | Switch => switchSession s
  | Focus => selectFocus s
  | Break => selectBreak s
  | UpdateDurations w b => updateDurations w b s
  | AddTask e => addTask e s
  | ToggleDone id => toggleTaskDone id s
  | Delete id => deleteTask id s
  | EditName id name => editTaskName id name s
  | Select id => selectTask id s
  | Typed input => setTaskInput input s
  end.

(** The states that the events allowed by [ok] lead to. *)
Inductive reachable (ok : event -> Prop) : state -> Prop :=
| reach_initial : reachable ok initial_state
| reach_run (ev : event) (s : state) :
    reachable ok s -> ok ev -> reachable ok (run ev s).

(** The events of C9: any stored data, and numbers for the minutes that
    the two inputs of type number give to [updateDurations]. *)
Definition any_stored (ev : event) : Prop :=
  match ev with
  | UpdateDurations w b => is_nan w = false /\ is_nan b = false
  | _ => True
  end.

(** A stored field that is missing or holds a non-negative integer. *)
Definition nat_field (v : jvalue) : Prop :=
  v = VPrim PUndef \/ exists z : Z, 0 <= z /\ v = VPrim (PNum (of_Z z)).

(** Stored data whose durations and remaining are missing or non-negative
    integers. *)
Definition sound_storage (ls : storage) : Prop :=
  (forall ds, parsed ls LS_KEYS.settings (JObj ∅) = Some ds ->
              nat_field (field ds "workDuration") /\
              nat_field (field ds "breakDuration")) /\
  (forall dt, parsed ls LS_KEYS.state (JObj ∅) = Some dt ->
              nat_field (field dt "remaining")).

(** The events of C9 with the load restricted to such stored data. *)
Definition sound_stored (ev : event) : Prop :=
  match ev with
  | Load ls => sound_storage ls
  | _ => any_stored ev
  end.

(** Stored tasks whose property values are JSON values, which is what
    [JSON.parse] gives except for a number too large to be finite. *)
Definition storable_tasks (ls : storage) : Prop :=
  forall l, parsed ls LS_KEYS.tasks (JArr []) = Some (JArr l) ->
            Forall storable_task l.

(** The events of a session in which the stored data is of the data model
    and a task is renamed to a JSON value (the interface passes a string). *)
Definition of_data_model (ev : event) : Prop :=
  match ev with
  | Load ls => sound_storage ls /\ storable_tasks ls
  | EditName _ name => storable name
  | _ => any_stored ev
  end.

(** A number is a positive integer. *)
Definition is_pos (a : num) : Prop :=
  exists z : Z, 0 < z /\ a = of_Z z.

(** Durations are positive integers and remaining is a non-negative one. *)
Definition timer_ok (s : state) : Prop :=
  is_pos (workDuration s) /\ is_pos (breakDuration s) /\ is_nat (remaining s).

(** A storage whose timer state record has a negative remaining. *)
Definition stored_negative : storage :=
  {[ LS_KEYS.state := TJson (JObj (<["remaining" := VPrim (PNum (of_Z (-5)))]> ∅)) ]}.

(** * The rest of the component

    The functions of [App.js] that come beside the timer and the task
    handlers: the time display, the theme, the derived progress, the two
    inputs of the session lengths, and the inline edit of [TaskItem]. *)

(** ** Arithmetic of the display *)

(** [a / b] *)
Definition num_div (a b : num) : num :=
  match a, b with
  | NaN, _ | _, NaN => NaN
  | Fin x, Fin y =>
      if Qeq_bool y 0 then
        match Z.sgn (Qnum x) with
        | Z0 => NaN
        | Zpos _ => PInf
        | Zneg _ => NInf
        end
      else round64 (x / y)
  | Fin _, _ => of_Z 0
  | PInf, Fin y => if Qle_bool 0 y then PInf else NInf
  | NInf, Fin y => if Qle_bool 0 y then NInf else PInf
  | _, _ => NaN
  end.

(** [a - b] and [a * b] of numbers that need not be integers: the result
    is rounded.  (The handlers compute with integers far below 2^53, where
    rounding changes nothing: they are written with [sub], [add] and [mul]
    as they are.) *)
Definition num_sub (a b : num) : num := rounded (sub a b).

Definition num_mul (a b : num) : num := rounded (mul a b).

(** The integer part of a rational, towards zero. *)
Definition Qtrunc (q : Q) : Z :=
  if Qle_bool 0 q then Qfloor q else Qceiling q.

(** [a % b]: the remainder has the sign of [a]. *)
Definition num_rem (a b : num) : num :=
  match a, b with
  | NaN, _ | _, NaN => NaN
  | PInf, _ | NInf, _ => NaN
  | Fin x, Fin y =>
      if Qeq_bool y 0 then NaN
      else Fin (Qred (x - y * inject_Z (Qtrunc (x / y))))
  | Fin x, _ => Fin x
  end.

(** [Math.round]: the nearest integer, a half going up. *)
Definition Math_round (a : num) : num :=
  match a with
  | Fin x => of_Z (Qfloor (x + (1 # 2)))
  | _ => a
  end.

(** [String(n)] of a number, where the embedding has it: [NaN], the
    infinities, and the integers up to 2^53 in magnitude, which print as
    their decimal digits.  [None] stands for the numbers whose digits are
    not modelled (fractions, and the larger numbers, of which the shortest
    digits that read back are printed). *)
Definition Number_toString (n : num) : option string :=
  match n with
  | NaN => Some "NaN"
  | PInf => Some "Infinity"
  | NInf => Some "-Infinity"
  | Fin q =>
      let r := Qred q in
      if Pos.eqb (Qden r) 1 && (Z.abs (Qnum r) <=? 2 ^ 53)
      then Some (pretty (Qnum r))
      else None
  end.

Fixpoint repeat_char (n : nat) (c : ascii) : string :=
  match n with
  | O => EmptyString
  | S n' => String c (repeat_char n' c)
  end.

(** [s.padStart(targetLength, fill)] for a [fill] of one character. *)
Definition padStart (targetLength : nat) (fill : ascii) (s : string) : string :=
  repeat_char (targetLength - String.length s) fill +:+ s.

(** Utility: format seconds to mm:ss *)
Definition formatTime (totalSeconds : num) : option string :=
  m ← Number_toString (floor (num_div totalSeconds (of_Z 60)));
  s ← Number_toString (num_rem totalSeconds (of_Z 60));
  Some (padStart 2 "0" m +:+ ":" +:+ padStart 2 "0" s).

(** ** Theme *)

Definition toggleTheme (theme : string) : string :=
  if String.eqb theme "light" then "dark" else "light".

Definition themeAria (theme : string) : string :=
  "Switch to " +:+ (if String.eqb theme "light" then "dark" else "light") +:+ " mode".

(** ** Derived data *)

Definition totalForProgress (s : state) : num :=
  if isWorkSession s then workDuration s else breakDuration s.

Definition progress (s : state) : num :=
  if gtb (totalForProgress s) (of_Z 0)
  then num_mul (num_sub (of_Z 1) (num_div (remaining s) (totalForProgress s)))
               (of_Z 100)
  else of_Z 0.

(** The width of the progress bar, in percent, and its [aria-valuenow]. *)
Definition progress_width (s : state) : num :=
  Num.max (of_Z 0) (Num.min (of_Z 100) (progress s)).

Definition progress_valuenow (s : state) : num := Math_round (progress s).

(** ** The inputs of the session lengths *)

(** The [value] of the two inputs. *)
Definition workMinutes (s : state) : num :=
  Math_round (num_div (workDuration s) (of_Z 60)).

Definition breakMinutes (s : state) : num :=
  Math_round (num_div (breakDuration s) (of_Z 60)).

(** Their [onChange], given [e.target.value]. *)
Definition changeWorkMinutes (value : string) (s : state) : state :=
  updateDurations (Number (PStr value)) (breakMinutes s) s.

Definition changeBreakMinutes (value : string) (s : state) : state :=
  updateDurations (workMinutes s) (Number (PStr value)) s.

(** ** TaskItem *)

(** The [useState] cells of one [TaskItem]. *)
Record item : Type := mkItem {
  editing : bool;
  value : prim
}.

(** The cells when the item is mounted for [task]. *)
Definition initial_item (task : obj) : item :=
  {| editing := false; value := get task "name" |}.

(** [confirmEdit], on blur and on Enter, with the [onEdit] that [App]
    passes, [editTaskName(task.id, name)]: the state of [App] and of the
    item after it, or [None] for the TypeError of [value.trim()] on a
    [value] that is not a string. *)
Definition confirmEdit (task : obj) (it : item) (s : state) : option (state * item) :=
  match value it with
  | PStr v =>
      let name := trim v in
      let s' :=
        if negb (is_empty name) && negb (strict_eq (PStr name) (get task "name"))
        then editTaskName (get task "id") (PStr name) s
        else s in
      Some (s', mkItem false (value it))
  | _ => None
  end.

(** ** Mounting *)

(** The effects of the first render over the storage [ls]: the load reads
    [ls]; the persist effects then write the initial state and, after the
    render of the loaded state, write that state (an effect that does not
    run again, its values being unchanged, leaves the text that writing
    them again would give). *)
Definition mount (ls : storage) : state * storage :=
  let s := load ls initial_state in
  (s, persist s (persist initial_state ls)).

(** ** Vocabulary of the display *)

(** The number that a string of decimal digits writes. *)
Fixpoint decimal_from (acc : Z) (s : string) : Z :=
  match s with
  | EmptyString => acc
  | String c r => decimal_from (10 * acc + (Z.of_N (N_of_ascii c) - 48)) r
  end.

Definition decimal_value (s : string) : Z := decimal_from 0 s.

(** The character of a decimal digit. *)
Definition digit_char (d : Z) : ascii := ascii_of_N (Z.to_N (48 + d)).

(** A number below 100 in two digits. *)
Definition two_digits (k : Z) : string :=
  String (digit_char (k / 10)) (String (digit_char (k mod 10)) EmptyString).

(** ** Vocabulary of a session *)

(** A number of seconds that is a whole number of minutes from [lo] to [hi]. *)
Definition whole_minutes (lo hi : Z) (n : num) : Prop :=
  exists k : Z, lo <= k <= hi /\ n = of_Z (60 * k).

(** The durations are whole minutes within the ranges of the two inputs,
    and remaining is a whole number of seconds from 0 to the duration of
    the session kind that is active. *)
Definition timer_in_bounds (s : state) : Prop :=
  whole_minutes 1 180 (workDuration s) /\
  whole_minutes 1 60 (breakDuration s) /\
  exists r T : Z,
    remaining s = of_Z r /\ totalForProgress s = of_Z T /\ 0 <= r <= T.

(** A text that is empty or begins with a character that is not a space. *)
Definition no_leading_space (u : string) : Prop :=
  match u with
  | EmptyString => True
  | String c _ => is_space c = false
  end.

(** A task as the interface makes and keeps it: the four properties of
    [addTask], with a name that is trimmed and not empty, and a count that
    is not negative. *)
Definition is_task (t : obj) : Prop :=
  exists (id name : string) (done : bool) (n : Z),
    t = mkTask id name done n /\
    name <> "" /\ trim name = name /\ 0 <= n.

(** The selection is [null] or the id of a task of the list. *)
Definition selection_ok (s : state) : Prop :=
  selectedTaskId s = PNull \/ In (selectedTaskId s) (ids (tasks s)).

Definition well_formed (s : state) : Prop :=
  timer_in_bounds s /\
  Forall is_task (tasks s) /\
  selection_ok s.

(** The ids of the tasks are strings that are not empty, and no two of
    them are the same. *)
Definition distinct_ids (s : state) : Prop :=
  List.NoDup (ids (tasks s)) /\ ~ In (PStr "") (ids (tasks s)).

(** What the interface can do in the state [s]: the handlers with the
    arguments that the components pass them.  [updateDurations] gets
    numbers; [addTask] gets whatever id the platform makes;
    [editTaskName] gets from [confirmEdit] a trimmed name that is not
    empty; [selectTask] gets the id of a task that is shown.  The load is
    not among them: it runs when the component is mounted. *)
Definition by_interface (s : state) (ev : event) : Prop :=
  match ev with
  | Load _ => False
  | UpdateDurations w b => is_nan w = false /\ is_nan b = false
  | EditName _ name => exists v : string, name = PStr (trim v) /\ trim v <> ""
  | Select id => In id (ids (tasks s))
  | _ => True
  end.

(** The id that the platform makes is new to the state [s]: it is not
    empty and it is the id of no task of the list.  [crypto.randomUUID]
    promises as much; the clock does not. *)
Definition new_to (s : state) (e : env) : Prop :=
  new_id e <> "" /\ ~ In (PStr (new_id e)) (ids (tasks s)).

(** Nothing is asked of the platform. *)
Definition any_platform (s : state) (e : env) : Prop := True.

(** The states of the sessions of the program over a platform of which
    [platform] holds at every [addTask]: the initial state; the state
    that the load leaves when the component is mounted, over a storage
    without the three records or over one that holds what the persist
    effects wrote of the state of a session; and the states that the
    interface leads to. *)
Inductive session_over (platform : state -> env -> Prop) : state -> Prop :=
| in_start : session_over platform initial_state
| in_fresh (ls : storage) :
    missing ls LS_KEYS.tasks -> missing ls LS_KEYS.settings ->
    missing ls LS_KEYS.state ->
    session_over platform (load ls initial_state)
| in_again (s0 : state) (ls0 : storage) :
    session_over platform s0 ->
    session_over platform (load (persist s0 ls0) initial_state)
| in_step (s : state) (ev : event) :
    session_over platform s -> by_interface s ev ->
    (forall e, ev = AddTask e -> platform s e) ->
    session_over platform (run ev s).

(** The states of the sessions of the program, whatever the platform. *)
Definition in_session : state -> Prop := session_over any_platform.


(** What a reload makes of a state: the persisted cells, the others as
    they are at the start. *)
Definition reloaded (s : state) : state :=
  {| isRunning := false;
     isWorkSession := isWorkSession s;
     workDuration := workDuration s;
     breakDuration := breakDuration s;
     remaining := remaining s;
     tasks := tasks s;
     taskInput := "";
     selectedTaskId := PNull |}.

(** A session: the component is mounted over an empty storage, a task is
    added, the work length is set to one minute, and the timer runs for
    [n] ticks. *)
Definition ticking (n : nat) : state :=
  Nat.iter n (run Tick)
    (run StartPause
       (run (UpdateDurations (of_Z 1) (of_Z 5))
          (run (AddTask secure_env)
             (run (Typed "Write report") (load ∅ initial_state))))).

(** The item of a task, in edit, with the text typed in its field. *)
Definition edited (task : obj) (text : string) : item :=
  {| editing := true; value := PStr text |}.

(** * Properties *)

(** ** The string functions on sample inputs *)

Example trim_samples :
  map trim ["  a b  "; ""; "   "; "Write report"; String (ascii_of_nat 9) "x "]
  = ["a b"; ""; ""; "Write report"; "x"].
Proof. reflexivity. Qed.

Example StringToNumber_samples :
  map StringToNumber ["1500"; " 1.5 "; ""; "-3e2"; "0x1F"; "-Infinity"; "12px"; "."]
  = [of_Z 1500; Fin (3 # 2); of_Z 0; of_Z (-300); of_Z 31; NInf; NaN; NaN].
Proof. vm_compute. reflexivity. Qed.

(** The value of a text is rounded to the nearest Number value: up to the
    next integer, down to an even significand, to infinity, to the
    nearest fraction of a power of two. *)
Example StringToNumber_rounds :
  map StringToNumber ["179.99999999999999999"; "9007199254740993"; "1e400"; "-1e400"; "0.1"]
  = [of_Z 180; of_Z 9007199254740992; PInf; NInf;
     Fin (3602879701896397 # 36028797018963968)].
Proof. vm_compute. reflexivity. Qed.

Example Number_samples :
  map Number [PUndef; PNull; PBool true; PNum (of_Z 7); PStr "abc"]
  = [NaN; of_Z 0; of_Z 1; of_Z 7; NaN].
Proof. reflexivity. Qed.

(** ** Rounding to binary64 *)

Section Rounding.

Local Open Scope Q_scope.

Lemma pow2_pos (e : Z) : 0 < 2 ^ e.
Proof. apply Qpower_0_lt. reflexivity. Qed.

Lemma pow2_add (a b : Z) : 2 ^ (a + b) == 2 ^ a * 2 ^ b.
Proof. apply Qpower_plus. discriminate. Qed.

Lemma pow2_le (a b : Z) : (a <= b)%Z -> 2 ^ a <= 2 ^ b.
Proof. intros H. apply Qpower_le_compat_l; [exact H | discriminate]. Qed.

Lemma pow2_lt (a b : Z) : (a < b)%Z -> 2 ^ a < 2 ^ b.
Proof. intros H. apply Qpower_lt_compat_l; [exact H | reflexivity]. Qed.

Lemma pow2_lt_inv (a b : Z) : 2 ^ a < 2 ^ b -> (a < b)%Z.
Proof. intros H. apply (Qpower_lt_compat_l_inv 2); [exact H | reflexivity]. Qed.

Lemma pow2_Z (k : Z) : (0 <= k)%Z -> 2 ^ k == inject_Z (2 ^ k).
Proof. intros H. now rewrite Zpower_Qpower. Qed.

Lemma binade_spec (x : Q) : 0 < x -> 2 ^ binade x <= x /\ x < 2 ^ (binade x + 1).
Proof.
  intros Hx. destruct x as [n d]. unfold binade. cbn [Qnum Qden].
  assert (Hn : (0 < n)%Z) by (unfold Qlt in Hx; simpl in Hx; lia).
  set (ln := Z.log2 n). set (ld := Z.log2 (Zpos d)).
  destruct (Z.log2_spec n Hn) as [Hn1 Hn2]. fold ln in Hn1, Hn2.
  destruct (Z.log2_spec (Zpos d) eq_refl) as [Hd1 Hd2]. fold ld in Hd1, Hd2.
  assert (Hln : (0 <= ln)%Z) by apply Z.log2_nonneg.
  assert (Hld : (0 <= ld)%Z) by apply Z.log2_nonneg.
  set (D := inject_Z (Zpos d)). set (N := inject_Z n).
  assert (HD : 0 < D) by reflexivity.
  assert (Hx' : (n # d) * D == N).
  { unfold D, N. rewrite (Qmake_Qdiv n d). field. discriminate. }
  assert (HN1 : 2 ^ ln <= N).
  { rewrite pow2_Z by assumption. unfold N. now rewrite <- Zle_Qle. }
  assert (HN2 : N < 2 ^ (ln + 1)).
  { rewrite pow2_Z by lia. unfold N. rewrite <- Zlt_Qlt. replace (ln + 1)%Z with (Z.succ ln) by lia. exact Hn2. }
  assert (HD1 : 2 ^ ld <= D).
  { rewrite pow2_Z by assumption. unfold D. now rewrite <- Zle_Qle. }
  assert (HD2 : D < 2 ^ (ld + 1)).
  { rewrite pow2_Z by lia. unfold D. rewrite <- Zlt_Qlt. replace (ld + 1)%Z with (Z.succ ld) by lia. exact Hd2. }
  assert (Hup : (n # d) < 2 ^ (ln - ld + 1)).
  { apply (Qmult_lt_r _ _ D HD). rewrite Hx'.
    eapply Qlt_le_trans; [exact HN2 |].
    replace (ln + 1)%Z with ((ln - ld + 1) + ld)%Z by lia. rewrite pow2_add.
    apply Qmult_le_l; [apply pow2_pos | exact HD1]. }
  assert (Hlo : 2 ^ (ln - ld - 1) < (n # d)).
  { apply (Qmult_lt_r _ _ D HD). rewrite Hx'.
    eapply Qlt_le_trans; [| exact HN1].
    replace ln with ((ln - ld - 1) + (ld + 1))%Z at 2 by lia. rewrite pow2_add.
    apply Qmult_lt_l; [apply pow2_pos | exact HD2]. }
  destruct (Qle_bool (2 ^ (ln - ld)) (n # d)) eqn:E.
  - apply Qle_bool_iff in E. split; assumption.
  - split; [now apply Qlt_le_weak |].
    replace (ln - ld - 1 + 1)%Z with (ln - ld)%Z by lia.
    apply Qnot_le_lt. intros H. apply Qle_bool_iff in H. congruence.
Qed.

Lemma rhe_cases (x : Q) : round_half_even x = Qfloor x \/
  (round_half_even x = (Qfloor x + 1)%Z /\ inject_Z (Qfloor x) < x).
Proof.
  unfold round_half_even.
  destruct (Qcompare_spec (x - inject_Z (Qfloor x)) (1 # 2)) as [H | H | H].
  - destruct (Z.even _); [now left | right]. split; [reflexivity | lra].
  - now left.
  - right. split; [reflexivity | lra].
Qed.

Lemma rhe_le (x : Q) (M : Z) : x <= inject_Z M -> (round_half_even x <= M)%Z.
Proof.
  intros H. pose proof (Qfloor_le x) as Hf.
  destruct (rhe_cases x) as [-> | [-> Hlt]].
  - rewrite Zle_Qle. lra.
  - assert (Hlt' : inject_Z (Qfloor x) < inject_Z M) by lra.
    rewrite <- Zlt_Qlt in Hlt'. lia.
Qed.

Lemma rhe_ge (x : Q) (M : Z) : inject_Z M <= x -> (M <= round_half_even x)%Z.
Proof.
  intros H. apply Qfloor_resp_le in H. rewrite Qfloor_Z in H.
  destruct (rhe_cases x) as [-> | [-> _]]; lia.
Qed.

Lemma scaled_back (x : Q) (e : Z) : x * 2 ^ (52 - e) * 2 ^ (e - 52) == x.
Proof.
  rewrite <- Qmult_assoc, <- pow2_add.
  replace (52 - e + (e - 52))%Z with 0%Z by lia. apply Qmult_1_r.
Qed.

(** A multiple of [2 ^ e'] is a multiple of a finer [2 ^ e]. *)
Lemma on_grid (m' e' e : Z) :
  (e <= e')%Z -> inject_Z m' * 2 ^ e' == inject_Z (m' * 2 ^ (e' - e)) * 2 ^ e.
Proof.
  intros H. rewrite inject_Z_mult, <- pow2_Z by lia.
  rewrite <- Qmult_assoc, <- pow2_add. now replace (e' - e + e)%Z with e' by lia.
Qed.

Lemma below_pow2 (m' e' : Z) :
  (Z.abs m' < 2 ^ 53)%Z -> inject_Z m' * 2 ^ e' < 2 ^ (e' + 53).
Proof.
  intros H. rewrite Z.add_comm, pow2_add.
  apply Qmult_lt_r; [apply pow2_pos |].
  rewrite pow2_Z by lia. rewrite <- Zlt_Qlt. lia.
Qed.

Lemma exponent_spec (x : Q) :
  0 < x ->
  x < 2 ^ (exponent x + 1) /\ ((-1022 < exponent x)%Z -> 2 ^ exponent x <= x).
Proof.
  intros Hx. destruct (binade_spec x Hx) as [Hlo Hhi]. unfold exponent. split.
  - eapply Qlt_le_trans; [exact Hhi |]. apply pow2_le. lia.
  - intros H. now replace (Z.max (binade x) (-1022)) with (binade x) by lia.
Qed.

Lemma mantissa_le (x : Q) (m' e' : Z) :
  0 < x -> (-1074 <= e')%Z -> (Z.abs m' < 2 ^ 53)%Z ->
  x <= inject_Z m' * 2 ^ e' ->
  inject_Z (mantissa x) * 2 ^ (exponent x - 52) <= inject_Z m' * 2 ^ e'.
Proof.
  intros Hx He' Hm' Hle. destruct (exponent_spec x Hx) as [Hhi Hlo].
  unfold mantissa. set (e := exponent x) in *.
  destruct (Z.le_gt_cases (e - 52) e') as [Hg | Hg].
  - rewrite (on_grid m' e' (e - 52) Hg) in Hle |- *.
    apply Qmult_le_r; [apply pow2_pos |]. rewrite <- Zle_Qle.
    apply rhe_le.
    apply (Qmult_le_r _ _ (2 ^ (e - 52))); [apply pow2_pos |].
    now rewrite scaled_back.
  - exfalso. specialize (Hlo ltac:(lia)).
    pose proof (below_pow2 m' e' Hm') as Hb.
    pose proof (pow2_le (e' + 53) e ltac:(lia)). lra.
Qed.

Lemma mantissa_ge (x : Q) (m' e' : Z) :
  0 < x -> (-1074 <= e')%Z -> (Z.abs m' < 2 ^ 53)%Z ->
  inject_Z m' * 2 ^ e' <= x ->
  inject_Z m' * 2 ^ e' <= inject_Z (mantissa x) * 2 ^ (exponent x - 52).
Proof.
  intros Hx He' Hm' Hle. destruct (exponent_spec x Hx) as [Hhi Hlo].
  unfold mantissa. set (e := exponent x) in *.
  destruct (Z.le_gt_cases (e - 52) e') as [Hg | Hg].
  - rewrite (on_grid m' e' (e - 52) Hg) in Hle |- *.
    apply Qmult_le_r; [apply pow2_pos |]. rewrite <- Zle_Qle.
    apply rhe_ge.
    apply (Qmult_le_r _ _ (2 ^ (e - 52))); [apply pow2_pos |].
    now rewrite scaled_back.
  - specialize (Hlo ltac:(lia)).
    pose proof (below_pow2 m' e' Hm') as Hb.
    pose proof (pow2_le (e' + 53) e ltac:(lia)) as Hp.
    assert (Hm : (2 ^ 52 <= round_half_even (x * 2 ^ (52 - e)))%Z).
    { apply rhe_ge. rewrite <- pow2_Z by lia.
      apply (Qmult_le_r _ _ (2 ^ (e - 52))); [apply pow2_pos |].
      rewrite scaled_back, <- pow2_add.
      now replace (52 + (e - 52))%Z with e by lia. }
    rewrite Zle_Qle, <- pow2_Z in Hm by lia.
    apply (Qmult_le_r _ _ (2 ^ (e - 52)) (pow2_pos _)) in Hm.
    rewrite <- pow2_add in Hm. replace (52 + (e - 52))%Z with e in Hm by lia.
    lra.
Qed.

Lemma binary64_opp (q : Q) : binary64 q -> binary64 (- q).
Proof.
  intros (m & e & Hm & He & H). exists (- m)%Z, e.
  split; [lia |]. split; [exact He |].
  rewrite H, inject_Z_opp. ring.
Qed.

Lemma round64_pos_between (lo hi x : Q) :
  0 < x -> binary64 lo -> binary64 hi -> lo <= x <= hi ->
  exists y, round64_pos x = Fin y /\ Qred y = y /\ lo <= y <= hi.
Proof.
  intros Hx (ml & el & Hml & Hel & Hlo) (mh & eh & Hmh & Heh & Hhi) [H1 H2].
  pose proof (mantissa_le x mh eh Hx ltac:(lia) Hmh ltac:(now rewrite <- Hhi)) as Hle.
  pose proof (mantissa_ge x ml el Hx ltac:(lia) Hml ltac:(now rewrite <- Hlo)) as Hge.
  unfold round64_pos.
  set (y := inject_Z (mantissa x) * 2 ^ (exponent x - 52)) in *.
  assert (Hfin : Qle_bool (2 ^ 1024) y = false).
  { destruct (Qle_bool (2 ^ 1024) y) eqn:E; [| reflexivity].
    apply Qle_bool_iff in E.
    pose proof (below_pow2 mh eh Hmh) as Hb.
    pose proof (pow2_le (eh + 53) 1024 ltac:(lia)). lra. }
  rewrite Hfin. exists (Qred y). split; [reflexivity |].
  split; [apply Qred_involutive |].
  rewrite Qred_correct, Hlo, Hhi. now split.
Qed.

Lemma Qnum_pos (x : Q) (p : positive) : Qnum x = Zpos p -> 0 < x.
Proof. destruct x as [n d]. simpl. intros ->. reflexivity. Qed.

Lemma Qnum_neg (x : Q) (p : positive) : Qnum x = Zneg p -> x < 0.
Proof. destruct x as [n d]. simpl. intros ->. reflexivity. Qed.

Lemma Qnum_zero (x : Q) : Qnum x = 0%Z -> x == 0.
Proof. destruct x as [n d]. simpl. intros ->. reflexivity. Qed.

(** Rounding does not pass a binary64 value: a number between two of them
    is rounded to a number between them. *)
Theorem round64_between (lo hi x : Q) :
  binary64 lo -> binary64 hi -> lo <= x <= hi ->
  exists y, round64 x = Fin y /\ Qred y = y /\ lo <= y <= hi.
Proof.
  intros Hlo Hhi [H1 H2]. unfold round64.
  destruct (Qnum x) as [| p | p] eqn:E.
  - apply Qnum_zero in E. exists 0. split; [reflexivity |].
    split; [reflexivity |]. lra.
  - apply Qnum_pos in E. now apply round64_pos_between.
  - apply Qnum_neg in E.
    destruct (round64_pos_between (- hi) (- lo) (- x)) as (y & -> & Hc & Hy);
      [lra | now apply binary64_opp | now apply binary64_opp | lra |].
    exists (Qred (- y)). split; [reflexivity |].
    split; [apply Qred_involutive |]. rewrite Qred_correct. lra.
Qed.

(** A binary64 value is rounded to itself. *)
Theorem round64_exact (x : Q) : binary64 x -> round64 x = Fin (Qred x).
Proof.
  intros H. destruct (round64_between x x x H H) as (y & -> & Hc & Hy); [lra |].
  f_equal. rewrite <- Hc. apply Qred_complete. lra.
Qed.

Lemma binary64_Z (z : Z) : (Z.abs z <= 2 ^ 53)%Z -> binary64 (inject_Z z).
Proof.
  intros H. destruct (Z.eq_dec (Z.abs z) (2 ^ 53)%Z) as [E | E].
  - exists (z / 2)%Z, 1%Z. split; [| split; [lia |]].
    + destruct (Z.abs_eq_or_opp z) as [Hz | Hz]; rewrite Hz in E.
      * subst z. reflexivity.
      * assert (z = (- 2 ^ 53)%Z) by lia. subst z. reflexivity.
    + destruct (Z.abs_eq_or_opp z) as [Hz | Hz]; rewrite Hz in E.
      * subst z. reflexivity.
      * assert (z = (- 2 ^ 53)%Z) by lia. subst z. reflexivity.
  - exists z, 0%Z. split; [lia |]. split; [lia |]. simpl. ring.
Qed.

Theorem round64_Z (z : Z) : (Z.abs z <= 2 ^ 53)%Z -> round64 (inject_Z z) = of_Z z.
Proof.
  intros H. rewrite round64_exact by now apply binary64_Z.
  unfold of_Z. f_equal. apply Qred_identity. simpl. apply Z.gcd_1_r.
Qed.

Lemma Fin_inj (a b : Q) : Fin a = Fin b -> a = b.
Proof. now intros [= ->]. Qed.

Lemma rhe_near (s : Q) :
  inject_Z (round_half_even s) - s <= 1 # 2 /\ s - inject_Z (round_half_even s) <= 1 # 2.
Proof.
  pose proof (Qfloor_le s) as H1. pose proof (Qlt_floor s) as H2.
  rewrite inject_Z_plus in H2. change (inject_Z 1) with 1 in H2.
  unfold round_half_even.
  destruct (Qcompare_spec (s - inject_Z (Qfloor s)) (1 # 2)) as [H | H | H].
  - destruct (Z.even _); [| rewrite inject_Z_plus; change (inject_Z 1) with 1]; lra.
  - lra.
  - rewrite inject_Z_plus. change (inject_Z 1) with 1. lra.
Qed.

(** The error of rounding a positive number below [2 ^ (k + 1)] is at most
    half a unit in the last place of that binade. *)
Theorem round64_error (x : Q) (k : Z) :
  (-1022 <= k <= 1022)%Z -> 0 <= x -> x < 2 ^ (k + 1) ->
  exists y, round64 x = Fin y /\ Qred y = y /\
            y - x <= 2 ^ (k - 53) /\ x - y <= 2 ^ (k - 53).
Proof.
  intros Hk Hx Hlt.
  assert (Hb : binary64 (2 ^ (k + 1))).
  { exists (2 ^ 52)%Z, (k - 51)%Z. split; [reflexivity |]. split; [lia |].
    rewrite <- pow2_Z, <- pow2_add by lia. now replace (52 + (k - 51))%Z with (k + 1)%Z by lia. }
  assert (Hz : binary64 0).
  { exists 0%Z, 0%Z. split; [reflexivity |]. split; [lia | reflexivity]. }
  destruct (round64_between 0 (2 ^ (k + 1)) x Hz Hb ltac:(lra)) as (y & Hy & Hc & _).
  exists y. split; [exact Hy |]. split; [exact Hc |].
  unfold round64 in Hy. destruct (Qnum x) as [| p | p] eqn:E.
  - apply Qnum_zero in E. apply Fin_inj in Hy. subst y.
    pose proof (pow2_pos (k - 53)). lra.
  - pose proof (Qnum_pos x p E) as Hpos. unfold round64_pos in Hy. destruct (Qle_bool _ _); [discriminate |].
    apply Fin_inj in Hy. subst y.
    pose proof (Qred_correct (inject_Z (mantissa x) * 2 ^ (exponent x - 52))) as Hr.
    destruct (exponent_spec x Hpos) as [_ Hlo].
    assert (He : (exponent x <= k)%Z).
    { destruct (Z.le_gt_cases (exponent x) k) as [H | H]; [exact H | exfalso].
      specialize (Hlo ltac:(lia)).
      pose proof (pow2_le (k + 1) (exponent x) ltac:(lia)). lra. }
    unfold mantissa in *. set (e := exponent x) in *.
    destruct (rhe_near (x * 2 ^ (52 - e))) as [N1 N2].
    pose proof (pow2_pos (e - 52)) as Hu.
    apply (Qmult_le_r _ _ _ Hu) in N1, N2.
    pose proof (scaled_back x e) as Hs.
    set (s := x * 2 ^ (52 - e)) in *. set (m := inject_Z (round_half_even s)) in *.
    set (u := 2 ^ (e - 52)) in *.
    assert (D1 : (m - s) * u == m * u - x) by (rewrite <- Hs; ring).
    assert (D2 : (s - m) * u == x - m * u) by (rewrite <- Hs; ring).
    rewrite D1 in N1. rewrite D2 in N2.
    assert (Hhalf : (1 # 2) * u == 2 ^ (e - 53)).
    { unfold u. change (1 # 2) with (2 ^ (-1)). rewrite <- pow2_add. now replace (-1 + (e - 52))%Z with (e - 53)%Z by lia. }
    rewrite Hhalf in N1, N2.
    pose proof (pow2_le (e - 53) (k - 53) ltac:(lia)).
    lra.
  - apply Qnum_neg in E. lra.
Qed.

(** Rounding a number from 0 to a binary64 value [hi] below [2 ^ (k + 1)]. *)
Lemma round64_nonneg (x hi : Q) (k : Z) :
  (-1022 <= k <= 1022)%Z -> binary64 hi -> hi < 2 ^ (k + 1) -> 0 <= x <= hi ->
  exists y, round64 x = Fin y /\ Qred y = y /\ 0 <= y <= hi /\
            y - x <= 2 ^ (k - 53) /\ x - y <= 2 ^ (k - 53) /\
            (binary64 x -> y == x).
Proof.
  intros Hk Hhi Hlt Hx.
  assert (Hz : binary64 0).
  { exists 0%Z, 0%Z. split; [reflexivity |]. split; [lia | reflexivity]. }
  destruct (round64_between 0 hi x Hz Hhi Hx) as (y & Hy & Hc & Hb).
  destruct (round64_error x k Hk ltac:(lra) ltac:(lra)) as (y' & Hy' & _ & He).
  rewrite Hy in Hy'. apply Fin_inj in Hy'. subst y'.
  exists y. do 3 (split; [assumption |]).
  split; [tauto |]. split; [tauto |].
  intros Hbx. rewrite (round64_exact x Hbx) in Hy. apply Fin_inj in Hy.
  rewrite <- Hy. apply Qred_correct.
Qed.

Lemma binary64_eq (x y : Q) : x == y -> binary64 x -> binary64 y.
Proof. intros E (m & e & Hm & He & H). exists m, e. now rewrite <- E. Qed.

End Rounding.

(** ** Arithmetic of integer-valued numbers *)

Section NumFacts.

Lemma Qred_inject_Z (z : Z) : Qred (inject_Z z) = inject_Z z.
Proof.
  apply Qred_identity. simpl. apply Z.gcd_1_r.
Qed.

Lemma Qred_eq_inject_Z (q : Q) (z : Z) : q == inject_Z z -> Qred q = inject_Z z.
Proof.
  intros H. rewrite <- (Qred_inject_Z z). now apply Qred_complete.
Qed.

Lemma opp_of_Z (a : Z) : opp (of_Z a) = of_Z (- a).
Proof.
  unfold opp, of_Z. f_equal. apply Qred_eq_inject_Z.
  now rewrite inject_Z_opp.
Qed.

Lemma add_of_Z (a b : Z) : add (of_Z a) (of_Z b) = of_Z (a + b).
Proof.
  unfold add, of_Z. f_equal. apply Qred_eq_inject_Z.
  now rewrite inject_Z_plus.
Qed.

Lemma sub_of_Z (a b : Z) : sub (of_Z a) (of_Z b) = of_Z (a - b).
Proof.
  unfold sub. rewrite opp_of_Z, add_of_Z. f_equal.
Qed.

Lemma mul_of_Z (a b : Z) : mul (of_Z a) (of_Z b) = of_Z (a * b).
Proof.
  unfold mul, of_Z. f_equal. apply Qred_eq_inject_Z.
  now rewrite inject_Z_mult.
Qed.

Lemma ltb_of_Z (a b : Z) : ltb (of_Z a) (of_Z b) = (a <? b)%Z.
Proof.
  unfold ltb, of_Z.
  destruct (Z.ltb_spec a b) as [H | H].
  - apply negb_true_iff. destruct (Qle_bool _ _) eqn:E; [| reflexivity].
    apply Qle_bool_iff in E. rewrite <- Zle_Qle in E. lia.
  - apply negb_false_iff. apply Qle_bool_iff. now rewrite <- Zle_Qle.
Qed.

Lemma gtb_of_Z (a b : Z) : gtb (of_Z a) (of_Z b) = (b <? a)%Z.
Proof. apply ltb_of_Z. Qed.

Lemma of_Z_inj (a b : Z) : of_Z a = of_Z b -> a = b.
Proof. unfold of_Z, inject_Z. intros H. now inversion H. Qed.

Lemma eqb_of_Z (a b : Z) : Num.eqb (of_Z a) (of_Z b) = (a =? b)%Z.
Proof.
  unfold Num.eqb, of_Z.
  destruct (Z.eqb_spec a b) as [-> | H].
  - apply Qeq_bool_iff. reflexivity.
  - destruct (Qeq_bool _ _) eqn:E; [| reflexivity].
    apply Qeq_bool_iff in E. exfalso. now apply H, inject_Z_injective.
Qed.

Lemma rounded_of_Z (z : Z) : Z.abs z <= 2 ^ 53 -> rounded (of_Z z) = of_Z z.
Proof. apply round64_Z. Qed.

(** On integers the exact operations are those of binary64, as long as
    the result is at most 2^53 in magnitude. *)
Lemma exact_on_integers (a b : Z) :
  (Z.abs (a + b) <= 2 ^ 53 ->
   rounded (add (of_Z a) (of_Z b)) = add (of_Z a) (of_Z b)) /\
  (Z.abs (a - b) <= 2 ^ 53 ->
   rounded (sub (of_Z a) (of_Z b)) = sub (of_Z a) (of_Z b)) /\
  (Z.abs (a * b) <= 2 ^ 53 ->
   rounded (mul (of_Z a) (of_Z b)) = mul (of_Z a) (of_Z b)).
Proof.
  rewrite add_of_Z, sub_of_Z, mul_of_Z.
  repeat split; apply rounded_of_Z.
Qed.

(** A number that [===] an integer, less one. *)
Lemma sub_eqb_of_Z (n : num) (a b : Z) :
  Num.eqb n (of_Z a) = true -> sub n (of_Z b) = of_Z (a - b).
Proof.
  destruct n as [q | | |]; intros H; simpl in H; try discriminate.
  apply Qeq_bool_iff in H.
  unfold sub. rewrite opp_of_Z. unfold add, of_Z. f_equal.
  apply Qred_eq_inject_Z. rewrite H, <- inject_Z_plus. f_equal.
Qed.

Lemma gtb_eqb_of_Z (n : num) (a b : Z) :
  Num.eqb n (of_Z a) = true -> gtb n (of_Z b) = (b <? a)%Z.
Proof.
  destruct n as [q | | |]; intros H; simpl in H; try discriminate.
  apply Qeq_bool_iff in H.
  rewrite <- (gtb_of_Z a b). unfold gtb, ltb, of_Z. f_equal.
  destruct (Qle_bool q _) eqn:E1, (Qle_bool (inject_Z a) _) eqn:E2; try reflexivity.
  - apply Qle_bool_iff in E1. rewrite H in E1. apply Qle_bool_iff in E1. congruence.
  - apply Qle_bool_iff in E2. rewrite <- H in E2. apply Qle_bool_iff in E2. congruence.
Qed.

End NumFacts.

(** ** The tick *)

Section Tick.

Lemma tick_running (s : state) :
  isRunning s = true -> tick s = tick_callback s.
Proof. unfold tick. now intros ->. Qed.

Lemma tick_callback_positive (s : state) :
  gtb (remaining s) (of_Z 0) = true ->
  tick_callback s = setRemaining (sub (remaining s) (of_Z 1)) s.
Proof. unfold tick_callback. now intros ->. Qed.

Lemma tick_callback_complete (s : state) :
  gtb (remaining s) (of_Z 0) = false ->
  switched s (tick_callback s) /\
  isRunning (tick_callback s) = isRunning s /\
  workDuration (tick_callback s) = workDuration s /\
  breakDuration (tick_callback s) = breakDuration s /\
  selectedTaskId (tick_callback s) = selectedTaskId s /\
  tasks (tick_callback s) =
    if isWorkSession s && truthy (selectedTaskId s)
    then map (credit (selectedTaskId s)) (tasks s)
    else tasks s.
Proof.
  intros H. unfold tick_callback, switched, other_duration. rewrite H.
  destruct (isWorkSession s) eqn:Ew, (truthy (selectedTaskId s)); simpl;
    rewrite ?Ew; auto 10.
Qed.

(** Without a selection that is truthy, no tick touches the tasks. *)
Lemma tick_tasks_unselected (s : state) :
  truthy (selectedTaskId s) = false -> tasks (tick s) = tasks s.
Proof.
  intros H. unfold tick, tick_callback.
  destruct (isRunning s); [| reflexivity].
  destruct (gtb _ _); [reflexivity |].
  rewrite H, andb_false_r. reflexivity.
Qed.


Lemma credit_other (sel : prim) (t : obj) :
  strict_eq (get t "id") sel = false -> credit sel t = t.
Proof. unfold credit. now intros ->. Qed.


Lemma map_credit_others (sel : prim) (l : list obj) :
  (forall u, In u l -> strict_eq (get u "id") sel = false) ->
  map (credit sel) l = l.
Proof.
  induction l as [| u l IH]; intros H; [reflexivity |].
  simpl. rewrite credit_other by (apply H; now left).
  f_equal. apply IH. intros v Hv. apply H. now right.
Qed.

End Tick.

(** C1, as the claim has it, fails: with one second left a tick only
    counts down; the session kind and its duration are not touched. *)
Lemma tick_at_one_not_switched :
  isRunning about_to_end = true /\
  remaining about_to_end = of_Z 1 /\
  remaining (tick about_to_end) = of_Z 0 /\
  isWorkSession (tick about_to_end) = isWorkSession about_to_end /\
  ~ switched about_to_end (tick about_to_end).
Proof.
  repeat split; try reflexivity.
  intros [_ H]. discriminate H.
Qed.

(** C1, amended: in a running timer with remaining = 1, one tick brings
    remaining to 0 and keeps the session kind; it is the tick after that,
    taken at remaining = 0, that sets remaining to the full configured
    duration of the other session kind and flips the kind. *)
Theorem tick_at_one_then_zero (s : state) :
  isRunning s = true ->
  Num.eqb (remaining s) (of_Z 1) = true ->
  remaining (tick s) = of_Z 0 /\
  isWorkSession (tick s) = isWorkSession s /\
  switched s (tick (tick s)).
Proof.
  intros Hrun Hone.
  assert (Hpos : gtb (remaining s) (of_Z 0) = true)
    by now rewrite (gtb_eqb_of_Z _ 1 0).
  assert (E : tick s = setRemaining (of_Z 0) s).
  { rewrite tick_running, tick_callback_positive by assumption.
    now rewrite (sub_eqb_of_Z _ 1 1) by assumption. }
  rewrite E. repeat split.
  - rewrite tick_running by assumption.
    apply (tick_callback_complete (setRemaining (of_Z 0) s)). reflexivity.
  - rewrite tick_running by assumption.
    apply (tick_callback_complete (setRemaining (of_Z 0) s)). reflexivity.
Qed.

Lemma tick_at_one_then_zero_witness :
  remaining (tick about_to_end) = of_Z 0 /\
  isWorkSession (tick about_to_end) = isWorkSession about_to_end /\
  switched about_to_end (tick (tick about_to_end)).
Proof. apply tick_at_one_then_zero; reflexivity. Defined.

(** ** Crediting the selected task *)



(** ** Session lengths *)

Section Durations.

Lemma min_of_Z (a b : Z) : Num.min (of_Z a) (of_Z b) = of_Z (Z.min a b).
Proof.
  unfold Num.min. cbn [of_Z]. fold (of_Z a) (of_Z b).
  rewrite ltb_of_Z. destruct (Z.ltb_spec b a); f_equal; lia.
Qed.

Lemma max_of_Z (a b : Z) : Num.max (of_Z a) (of_Z b) = of_Z (Z.max a b).
Proof.
  unfold Num.max. cbn [of_Z]. fold (of_Z a) (of_Z b).
  rewrite ltb_of_Z. destruct (Z.ltb_spec a b); f_equal; lia.
Qed.

(** [Math.max(lo, Math.min(hi, Math.floor(n))) * 60] *)
Lemma clamp_seconds (lo hi : Z) (n : num) :
  lo <= hi -> 0 < lo ->
  is_nan n = false ->
  mul (Num.max (of_Z lo) (Num.min (of_Z hi) (floor n))) (of_Z 60)
  = of_Z (60 * clamped lo hi n).
Proof.
  intros Hle Hlo Hn. destruct n as [q | | |]; try discriminate; cbn [floor clamped].
  - rewrite min_of_Z, max_of_Z, mul_of_Z. f_equal. lia.
  - replace (Num.min (of_Z hi) PInf) with (of_Z hi) by reflexivity.
    rewrite max_of_Z, mul_of_Z. f_equal. lia.
  - replace (Num.min (of_Z hi) NInf) with NInf by reflexivity.
    replace (Num.max (of_Z lo) NInf) with (of_Z lo) by reflexivity.
    rewrite mul_of_Z. f_equal. lia.
Qed.

Lemma clamped_range (lo hi : Z) (n : num) :
  lo <= hi -> lo <= clamped lo hi n <= hi.
Proof. intros H. destruct n; simpl; lia. Qed.

Lemma clamped_in_range (lo hi z : Z) :
  lo <= z <= hi -> clamped lo hi (of_Z z) = z.
Proof. intros H. unfold clamped, of_Z. rewrite Qfloor_Z. lia. Qed.

End Durations.

(** C4: for every pair of requested durations (numbers of minutes, [NaN]
    not being one), [updateDurations] sets the work duration to the request
    floored and clamped to 1..180 minutes and the break duration to the
    request floored and clamped to 1..60 minutes, both in seconds; a whole
    number of minutes within the range is taken as it is; remaining becomes
    the new duration of the session kind that is active, and the session
    kind is unchanged. *)
Theorem updateDurations_clamps (newWorkMin newBreakMin : num) (s : state) :
  is_nan newWorkMin = false ->
  is_nan newBreakMin = false ->
  let s' := updateDurations newWorkMin newBreakMin s in
  workDuration s' = of_Z (60 * clamped 1 180 newWorkMin) /\
  breakDuration s' = of_Z (60 * clamped 1 60 newBreakMin) /\
  1 <= clamped 1 180 newWorkMin <= 180 /\
  1 <= clamped 1 60 newBreakMin <= 60 /\
  (forall z, 1 <= z <= 180 -> newWorkMin = of_Z z -> workDuration s' = of_Z (60 * z)) /\
  (forall z, 1 <= z <= 60 -> newBreakMin = of_Z z -> breakDuration s' = of_Z (60 * z)) /\
  remaining s' = (if isWorkSession s then workDuration s' else breakDuration s') /\
  isWorkSession s' = isWorkSession s.
Proof.
  intros Hw Hb s'.
  assert (Ew : workDuration s' = of_Z (60 * clamped 1 180 newWorkMin))
    by (apply clamp_seconds; [lia | lia | assumption]).
  assert (Eb : breakDuration s' = of_Z (60 * clamped 1 60 newBreakMin))
    by (apply clamp_seconds; [lia | lia | assumption]).
  split; [exact Ew |]. split; [exact Eb |].
  split; [apply clamped_range; lia |]. split; [apply clamped_range; lia |].
  split; [| split; [| split]].
  - intros z Hz ->. rewrite Ew. now rewrite clamped_in_range.
  - intros z Hz ->. rewrite Eb. now rewrite clamped_in_range.
  - subst s'. unfold updateDurations. now destruct (isWorkSession s).
  - reflexivity.
Qed.

Lemma updateDurations_clamps_witness :
  let s' := updateDurations (Fin (5 # 2)) (of_Z 90) about_to_end in
  workDuration s' = of_Z 120 /\
  breakDuration s' = of_Z 3600 /\
  remaining s' = of_Z 120 /\
  isWorkSession s' = true.
Proof.
  destruct (updateDurations_clamps (Fin (5 # 2)) (of_Z 90) about_to_end eq_refl eq_refl)
    as (Hw & Hb & _ & _ & _ & _ & Hr & Hk).
  repeat split; assumption.
Defined.

(** ** The task list *)

Section Tasks.

Lemma is_empty_false (x : string) : is_empty x = false <-> x <> "".
Proof. destruct x; simpl; split; congruence. Qed.

(** Without [crypto.randomUUID], ids made at different milliseconds differ. *)
Lemma new_id_timestamps (e1 e2 : env) :
  randomUUID e1 = None -> randomUUID e2 = None ->
  Date_now e1 <> Date_now e2 -> new_id e1 <> new_id e2.
Proof.
  unfold new_id. intros -> -> Hne Heq. apply Hne.
  now apply (inj pretty).
Qed.

Lemma get_mkTask (id name : string) (done : bool) (n : Z) :
  get (mkTask id name done n) "id" = PStr id /\
  get (mkTask id name done n) "name" = PStr name /\
  get (mkTask id name done n) "done" = PBool done /\
  get (mkTask id name done n) "pomodoros" = PNum (of_Z n).
Proof.
  unfold get, mkTask. repeat split; now simplify_map_eq.
Qed.

Lemma mkTask_set_done (id name : string) (done b : bool) (n : Z) :
  <["done" := PBool b]> (mkTask id name done n) = mkTask id name b n.
Proof.
  unfold mkTask. apply map_eq. intros k. rewrite !lookup_insert.
  repeat case_decide; congruence.
Qed.

Lemma addTask_blank (e : env) (s : state) :
  trim (taskInput s) = "" -> addTask e s = s.
Proof.
  intros H. unfold addTask. rewrite H. reflexivity.
Qed.

Lemma addTask_tasks (e : env) (s : state) :
  trim (taskInput s) <> "" ->
  tasks (addTask e s) = mkTask (new_id e) (trim (taskInput s)) false 0 :: tasks s.
Proof.
  intros H. apply is_empty_false in H. unfold addTask. rewrite H.
  destruct (negb _); reflexivity.
Qed.

Lemma addTask_selected (e : env) (s : state) :
  trim (taskInput s) <> "" ->
  selectedTaskId (addTask e s) =
    if truthy (selectedTaskId s) then selectedTaskId s else PStr (new_id e).
Proof.
  intros H. apply is_empty_false in H. unfold addTask. rewrite H.
  destruct (truthy _); simpl; [reflexivity |].
  apply get_mkTask.
Qed.

Lemma map_absent (id : prim) (f : obj -> obj) (l : list obj) :
  absent id l ->
  map (fun t => if strict_eq (get t "id") id then f t else t) l = l.
Proof.
  induction l as [| u l IH]; intros H; [reflexivity |].
  simpl. rewrite (H u) by now left.
  f_equal. apply IH. intros v Hv. apply H. now right.
Qed.

Lemma filter_absent (id : prim) (l : list obj) :
  absent id l ->
  List.filter (fun t => negb (strict_eq (get t "id") id)) l = l.
Proof.
  induction l as [| u l IH]; intros H; [reflexivity |].
  simpl. rewrite (H u) by now left. simpl.
  f_equal. apply IH. intros v Hv. apply H. now right.
Qed.

Lemma deleteTask_tasks (id : prim) (s : state) :
  tasks (deleteTask id s) =
    List.filter (fun t => negb (strict_eq (get t "id") id)) (tasks s).
Proof. unfold deleteTask. now destruct (strict_eq (selectedTaskId s) id). Qed.

Lemma deleteTask_selected (id : prim) (s : state) :
  selectedTaskId (deleteTask id s) =
    if strict_eq (selectedTaskId s) id then PNull else selectedTaskId s.
Proof. unfold deleteTask. now destruct (strict_eq (selectedTaskId s) id). Qed.

Lemma tick_selected (s : state) : selectedTaskId (tick s) = selectedTaskId s.
Proof.
  unfold tick, tick_callback.
  destruct (isRunning s); [| reflexivity].
  destruct (gtb _ _); [reflexivity |].
  now destruct (isWorkSession s && truthy (selectedTaskId s)).
Qed.

(** Ticks, however many, credit no task while nothing truthy is selected. *)
Lemma ticks_unselected (n : nat) (s : state) :
  truthy (selectedTaskId s) = false ->
  tasks (Nat.iter n tick s) = tasks s /\
  selectedTaskId (Nat.iter n tick s) = selectedTaskId s.
Proof.
  intros H. induction n as [| n [IHt IHs]]; [now split |].
  simpl. rewrite tick_selected, tick_tasks_unselected; [now split |].
  now rewrite IHs.
Qed.

End Tasks.

(** C5: the id that [addTask] gives a task is not fresh in every case.
    Without [crypto.randomUUID] the id is the millisecond clock in decimal,
    and two tasks added within one millisecond get the same id: the list
    then holds two tasks of one id, and a toggle of either of them toggles
    both. *)
Theorem addTask_clock_id_repeats :
  tasks added_twice =
    [mkTask "1762113600000" "Read" false 0;
     mkTask "1762113600000" "Write report" false 0] /\
  ~ List.NoDup (ids (tasks added_twice)) /\
  tasks (toggleTaskDone (PStr "1762113600000") added_twice) =
    [mkTask "1762113600000" "Read" true 0;
     mkTask "1762113600000" "Write report" true 0].
Proof.
  split; [reflexivity |]. split.
  - intros H. apply List.NoDup_cons_iff in H as [H _]. apply H. now left.
  - unfold toggleTaskDone. cbn [tasks setTasks]. change (tasks added_twice)
      with [mkTask "1762113600000" "Read" false 0;
            mkTask "1762113600000" "Write report" false 0].
    cbn [map]. rewrite !(proj1 (get_mkTask _ _ _ _)). cbn [strict_eq].
    rewrite String.eqb_refl.
    rewrite !(proj1 (proj2 (proj2 (get_mkTask _ _ _ _)))). cbn [truthy negb].
    now rewrite !mkTask_set_done.
Qed.

(** C10: an [addTask] that adds a task (the name trims to something not
    empty) selects the new task when nothing is selected (the selection is
    [null]) and leaves the selection as it is when a task is selected (the
    selection is truthy). *)
Theorem addTask_selects_when_none (e : env) (s : state) :
  trim (taskInput s) <> "" ->
  (selectedTaskId s = PNull ->
   exists t : obj,
     tasks (addTask e s) = t :: tasks s /\
     selectedTaskId (addTask e s) = get t "id") /\
  (truthy (selectedTaskId s) = true ->
   selectedTaskId (addTask e s) = selectedTaskId s).
Proof.
  intros Hname. split.
  - intros Hnone. eexists. split; [now apply addTask_tasks |].
    rewrite addTask_selected, Hnone by assumption. simpl.
    symmetry. apply get_mkTask.
  - intros Hsel. now rewrite addTask_selected, Hsel.
Qed.

Lemma addTask_selects_when_none_witness :
  selectedTaskId (addTask plain_env (setSelectedTaskId PNull typing))
    = PStr "1762113600000" /\
  selectedTaskId (addTask plain_env typing) = PStr "a".
Proof.
  split.
  - destruct (proj1 (addTask_selects_when_none plain_env
                       (setSelectedTaskId PNull typing) ltac:(discriminate)) eq_refl)
      as (t & Ht & ->).
    injection Ht as <-. reflexivity.
  - exact (proj2 (addTask_selects_when_none plain_env typing ltac:(discriminate)) eq_refl).
Defined.

(** C6: [deleteTask(id)] keeps, in order, the tasks whose id is not [id],
    so that the task with that id, when there is one such task, is taken
    out and the rest is as before.  When [id] is the current selection the
    selection becomes [null], and from then on ticks, session completions
    among them, credit no task; when [id] is not the selection, the
    selection is unchanged. *)
Theorem deleteTask_clears_selection (id : prim) (s : state) :
  let s' := deleteTask id s in
  absent id (tasks s') /\
  (forall t, In t (tasks s') <-> In t (tasks s) /\ strict_eq (get t "id") id = false) /\
  (forall l1 t l2,
     tasks s = l1 ++ t :: l2 ->
     strict_eq (get t "id") id = true ->
     absent id (l1 ++ l2) ->
     tasks s' = l1 ++ l2) /\
  (strict_eq (selectedTaskId s) id = true ->
   selectedTaskId s' = PNull /\
   forall n, tasks (Nat.iter n tick s') = tasks s') /\
  (strict_eq (selectedTaskId s) id = false ->
   selectedTaskId s' = selectedTaskId s).
Proof.
  intros s'. subst s'.
  assert (Hin : forall t, In t (tasks (deleteTask id s)) <->
                          In t (tasks s) /\ strict_eq (get t "id") id = false).
  { intros t. rewrite deleteTask_tasks, List.filter_In, negb_true_iff. reflexivity. }
  split; [| split; [exact Hin | split; [| split]]].
  - intros t Ht. now apply Hin in Ht.
  - intros l1 t l2 Hl Hid Habs.
    rewrite deleteTask_tasks, Hl, List.filter_app. cbn [List.filter].
    rewrite Hid. cbn [negb].
    rewrite <- List.filter_app. now apply filter_absent.
  - intros Hsel. rewrite deleteTask_selected, Hsel. split; [reflexivity |].
    intros n. apply ticks_unselected.
    now rewrite deleteTask_selected, Hsel.
  - intros Hsel. now rewrite deleteTask_selected, Hsel.
Qed.

Lemma deleteTask_clears_selection_witness :
  tasks (deleteTask (PStr "b") work_done) = [mkTask "a" "Read" false 0] /\
  selectedTaskId (deleteTask (PStr "b") work_done) = PNull /\
  tasks (tick (deleteTask (PStr "b") work_done)) = [mkTask "a" "Read" false 0] /\
  selectedTaskId (deleteTask (PStr "a") work_done) = PStr "b".
Proof.
  destruct (deleteTask_clears_selection (PStr "b") work_done)
    as (_ & _ & Hout & Hsel & _).
  destruct (Hsel eq_refl) as [Hnull Hticks].
  assert (Ht : tasks (deleteTask (PStr "b") work_done) = [mkTask "a" "Read" false 0]).
  { apply (Hout [mkTask "a" "Read" false 0] (mkTask "b" "Write report" false 2) []);
      try reflexivity.
    intros u [<- | []]. reflexivity. }
  split; [exact Ht |]. split; [exact Hnull |]. split.
  - transitivity (tasks (deleteTask (PStr "b") work_done));
      [exact (Hticks 1%nat) | exact Ht].
  - destruct (deleteTask_clears_selection (PStr "a") work_done)
      as (_ & _ & _ & _ & Hkeep).
    exact (Hkeep eq_refl).
Defined.

(** C7: [toggleTaskDone], [deleteTask] and [editTaskName] are functions
    from states to states, with no error result; for an id that is the id
    of no task of the list, each of them leaves the task list as it is. *)
Theorem absent_id_is_noop (id name : prim) (s : state) :
  absent id (tasks s) ->
  tasks (toggleTaskDone id s) = tasks s /\
  tasks (deleteTask id s) = tasks s /\
  tasks (editTaskName id name s) = tasks s.
Proof.
  intros H. split; [| split].
  - unfold toggleTaskDone. cbn [tasks setTasks].
    now apply (map_absent id (fun t => <["done" := _]> t)).
  - rewrite deleteTask_tasks. now apply filter_absent.
  - unfold editTaskName. cbn [tasks setTasks].
    now apply (map_absent id (fun t => <["name" := name]> t)).
Qed.

Lemma absent_id_is_noop_witness :
  tasks (toggleTaskDone (PStr "zz") work_done) = tasks work_done /\
  tasks (deleteTask (PStr "zz") work_done) = tasks work_done /\
  tasks (editTaskName (PStr "zz") (PStr "Plan") work_done) = tasks work_done.
Proof.
  apply absent_id_is_noop.
  intros t [<- | [<- | []]]; reflexivity.
Defined.

(** ** Loading *)

Section Load.

Lemma prop_readable (d : json) (k : string) (s : state) :
  readable d = true -> prop d k s = Ret (field d k) s.
Proof. destruct d as [[] | |]; simpl; intros; try discriminate; reflexivity. Qed.

Lemma prop_unreadable (d : json) (k : string) (s : state) :
  readable d = false -> prop d k s = Throw s.
Proof. destruct d as [[] | |]; simpl; intros; try discriminate; reflexivity. Qed.

Lemma JSON_parse_parsed (ls : storage) (k : string) (dflt : json) (s : state) :
  JSON_parse (getItem_or ls k dflt) s =
    match parsed ls k dflt with
    | Some d => Ret d s
    | None => Throw s
    end.
Proof. unfold parsed. now destruct (getItem_or ls k dflt). Qed.

Lemma Number_of_duration (v : jvalue) (dflt : num) (s : state) :
  Number_of (value_or v (PNum dflt)) s =
    match duration_read v dflt with
    | Some n => Ret n s
    | None => Throw s
    end.
Proof. unfold Number_of, duration_read. now destruct (converted _). Qed.

(** Only an object without a primitive value makes the conversion throw. *)
Lemma duration_read_convertible (v : jvalue) (dflt : num) :
  convertible v = true <-> exists n, duration_read v dflt = Some n.
Proof.
  unfold duration_read, value_or.
  destruct v as [p | [t |]]; cbn [value_truthy convertible converted].
  - split; [intros _ | reflexivity]. destruct (truthy p); eexists; reflexivity.
  - split; [intros _; eexists |]; reflexivity.
  - split; [discriminate | intros [n H]; discriminate H].
Qed.

(** On a flat record the conversion is [Number] of the primitive. *)
Lemma duration_read_prim (p : prim) (dflt : num) :
  duration_read (VPrim p) dflt = Some (Number (js_or p (PNum dflt))).
Proof.
  unfold duration_read, value_or, js_or. cbn [value_truthy].
  now destruct (truthy p).
Qed.

(** The first step of the body: [if (Array.isArray(savedTasks)) setTasks(savedTasks)]. *)
Lemma load_tasks_step (dk : json) (s : state) :
  match dk with JArr l => call (setTasks l) | _ => ret tt end s
  = Ret tt (setTasks (match dk with JArr l => l | _ => tasks s end) s).
Proof. destruct dk; destruct s; reflexivity. Qed.

(** The load when it runs to its end: every step of the body is taken. *)
Lemma load_well_parsed (ls : storage) (s : state) (dk ds dt : json) (wd bd : num) :
  parsed ls LS_KEYS.tasks (JArr []) = Some dk ->
  parsed ls LS_KEYS.settings (JObj ∅) = Some ds ->
  parsed ls LS_KEYS.state (JObj ∅) = Some dt ->
  readable ds = true ->
  readable dt = true ->
  duration_read (field ds "workDuration") DEFAULT_WORK = Some wd ->
  duration_read (field ds "breakDuration") DEFAULT_BREAK = Some bd ->
  load ls s =
    {| isRunning := isRunning s;
       isWorkSession :=
         match field dt "isWorkSession" with
         | VPrim (PBool b) => b
         | _ => isWorkSession s
         end;
       workDuration := duration_kept wd DEFAULT_WORK;
       breakDuration := duration_kept bd DEFAULT_BREAK;
       remaining :=
         match finite_number (field dt "remaining") with
         | Some n => n
         | None => if value_truthy (field dt "isWorkSession") then wd else bd
         end;
       tasks := match dk with JArr l => l | _ => tasks s end;
       taskInput := taskInput s;
       selectedTaskId := selectedTaskId s |}.
Proof.
  intros Hk Hs Ht Rs Rt Hw Hb.
  unfold load, load_effect, try_catch, load_body.
  unfold mbind, M_bind, bind.
  rewrite JSON_parse_parsed, Hk. cbv beta iota.
  rewrite load_tasks_step. cbv beta iota.
  rewrite JSON_parse_parsed, Hs. cbv beta iota.
  rewrite prop_readable by assumption. cbv beta iota.
  rewrite Number_of_duration, Hw. cbv beta iota.
  rewrite prop_readable by assumption. cbv beta iota.
  rewrite Number_of_duration, Hb. cbv beta iota.
  unfold call at 1 2. cbv beta iota.
  rewrite JSON_parse_parsed, Ht. cbv beta iota.
  rewrite prop_readable by assumption. cbv beta iota.
  unfold duration_kept.
  destruct (field dt "isWorkSession") as [[| | [] | |] |] eqn:Ew;
    unfold ret, call; cbv beta iota;
    rewrite prop_readable by assumption; cbv beta iota;
    destruct (finite_number (field dt "remaining")); reflexivity.
Qed.

(** The load when it does not: the handler has run, and only the tasks can
    have been loaded before that. *)
Lemma load_ill_parsed (ls : storage) (s : state) :
  loadable ls = false ->
  load ls s =
    {| isRunning := isRunning s;
       isWorkSession := isWorkSession s;
       workDuration := DEFAULT_WORK;
       breakDuration := DEFAULT_BREAK;
       remaining := DEFAULT_WORK;
       tasks :=
         match parsed ls LS_KEYS.tasks (JArr []) with
         | Some (JArr l) => l
         | _ => tasks s
         end;
       taskInput := taskInput s;
       selectedTaskId := selectedTaskId s |}.
Proof.
  unfold loadable, well_parsed. intros H.
  unfold load, load_effect, try_catch, load_body.
  unfold mbind, M_bind, bind.
  rewrite JSON_parse_parsed.
  destruct (parsed ls LS_KEYS.tasks (JArr [])) as [dk |]; [| reflexivity].
  cbv beta iota. rewrite load_tasks_step. cbv beta iota.
  rewrite JSON_parse_parsed.
  destruct (parsed ls LS_KEYS.settings (JObj ∅)) as [ds |]; [| now destruct dk].
  cbv beta iota.
  destruct (readable ds) eqn:Rs;
    [| rewrite prop_unreadable by assumption; now destruct dk].
  rewrite prop_readable by assumption. cbv beta iota.
  rewrite Number_of_duration.
  destruct (duration_read (field ds "workDuration") DEFAULT_WORK) as [wd |] eqn:Hw;
    [| now destruct dk].
  cbv beta iota. rewrite prop_readable by assumption. cbv beta iota.
  rewrite Number_of_duration.
  destruct (duration_read (field ds "breakDuration") DEFAULT_BREAK) as [bd |] eqn:Hb;
    [| now destruct dk].
  cbv beta iota. unfold call at 1 2. cbv beta iota.
  rewrite JSON_parse_parsed.
  destruct (parsed ls LS_KEYS.state (JObj ∅)) as [dt |]; [| now destruct dk].
  cbv beta iota.
  destruct (readable dt) eqn:Rt; [| rewrite prop_unreadable by assumption; now destruct dk].
  exfalso.
  rewrite (proj2 (duration_read_convertible _ DEFAULT_WORK) (ex_intro _ wd Hw)) in H.
  rewrite (proj2 (duration_read_convertible _ DEFAULT_BREAK) (ex_intro _ bd Hb)) in H.
  discriminate H.
Qed.

End Load.

Section LoadRecords.

Lemma parsed_missing (ls : storage) (k : string) (dflt : json) :
  missing ls k -> parsed ls k dflt = Some dflt.
Proof. unfold parsed, getItem_or. now intros [-> | ->]. Qed.

Lemma well_parsed_inv (ls : storage) :
  well_parsed ls = true ->
  exists dk ds dt,
    parsed ls LS_KEYS.tasks (JArr []) = Some dk /\
    parsed ls LS_KEYS.settings (JObj ∅) = Some ds /\
    parsed ls LS_KEYS.state (JObj ∅) = Some dt /\
    readable ds = true /\ readable dt = true.
Proof.
  unfold well_parsed.
  destruct (parsed ls LS_KEYS.tasks _) as [dk |]; [| discriminate].
  destruct (parsed ls LS_KEYS.settings _) as [ds |]; [| discriminate].
  destruct (parsed ls LS_KEYS.state _) as [dt |]; [| discriminate].
  intros H. apply andb_true_iff in H. eauto 10.
Qed.

Lemma loadable_inv (ls : storage) :
  loadable ls = true ->
  exists dk ds dt wd bd,
    parsed ls LS_KEYS.tasks (JArr []) = Some dk /\
    parsed ls LS_KEYS.settings (JObj ∅) = Some ds /\
    parsed ls LS_KEYS.state (JObj ∅) = Some dt /\
    readable ds = true /\ readable dt = true /\
    duration_read (field ds "workDuration") DEFAULT_WORK = Some wd /\
    duration_read (field ds "breakDuration") DEFAULT_BREAK = Some bd.
Proof.
  unfold loadable. intros H. apply andb_true_iff in H as [Hp Hc].
  destruct (well_parsed_inv ls Hp) as (dk & ds & dt & Hk & Hs & Ht & Rs & Rt).
  rewrite Hs in Hc. apply andb_true_iff in Hc as [Cw Cb].
  apply (duration_read_convertible _ DEFAULT_WORK) in Cw as [wd Hw].
  apply (duration_read_convertible _ DEFAULT_BREAK) in Cb as [bd Hb].
  exists dk, ds, dt, wd, bd. auto 10.
Qed.

(** A storage whose records hold primitive values only is loadable when
    no record is malformed. *)
Lemma loadable_flat (ls : storage) :
  well_parsed ls = true ->
  (forall ds, parsed ls LS_KEYS.settings (JObj ∅) = Some ds ->
              convertible (field ds "workDuration") = true /\
              convertible (field ds "breakDuration") = true) ->
  loadable ls = true.
Proof.
  intros Hp Hc. unfold loadable. rewrite Hp.
  destruct (well_parsed_inv ls Hp) as (dk & ds & dt & Hk & Hs & Ht & Rs & Rt).
  rewrite Hs. destruct (Hc ds Hs) as [-> ->]. reflexivity.
Qed.

Lemma readable_false (d : json) :
  readable d = false -> d = JPrim PNull \/ d = JPrim PUndef.
Proof. destruct d as [[] | |]; cbn; auto; discriminate. Qed.

Lemma convertible_false (v : jvalue) : convertible v = false -> v = VNested None.
Proof. destruct v as [p | [t |]]; cbn; try discriminate. reflexivity. Qed.

Lemma truthy_falsy (v : jvalue) : value_truthy v = false <-> falsy v.
Proof.
  split.
  - destruct v as [[| | [] | [q | | |] | [| c t]] | o]; cbn; try discriminate;
      intros H; try constructor.
    apply negb_false_iff, Qeq_bool_iff in H. exact H.
  - intros []; cbn; try reflexivity.
    apply negb_false_iff, Qeq_bool_iff. assumption.
Qed.

(** The duration that the load keeps is the one that the amended claim
    describes, case by case. *)
Lemma duration_kept_loaded (v : jvalue) (dflt n : num) :
  is_finite dflt = true ->
  duration_read v dflt = Some n ->
  loaded_duration dflt v (duration_kept n dflt).
Proof.
  intros Hd. unfold duration_read, value_or.
  destruct (value_truthy v) eqn:E.
  - destruct v as [[| | [] | [q | | |] | t] | [t |]];
      cbn in E; try discriminate; cbn [converted Number]; intros [= <-].
    + apply loaded_true.
    + apply loaded_number. intros H. apply Qeq_bool_iff in H. now rewrite H in E.
    + apply loaded_infinity. now left.
    + apply loaded_infinity. now right.
    + assert (Ht : t <> "") by now destruct t.
      unfold duration_kept. destruct (StringToNumber t) as [q | | |] eqn:En;
        cbn [is_finite];
        [now apply loaded_text | | |]; apply loaded_no_number; try assumption;
        now rewrite En.
    + unfold duration_kept. destruct (StringToNumber t) as [q | | |] eqn:En;
        cbn [is_finite];
        [now apply loaded_nested | | |]; apply loaded_nested_no_number;
        now rewrite En.
  - cbn [converted Number]. intros [= <-]. unfold duration_kept. rewrite Hd.
    apply loaded_default. now apply truthy_falsy.
Qed.

(** The description leaves no choice: a field gives one duration. *)
Lemma loaded_duration_fun (dflt : num) (v : jvalue) (d d' : num) :
  loaded_duration dflt v d -> loaded_duration dflt v d' -> d = d'.
Proof.
  intros H1 H2.
  destruct H1 as [v Hf | q Hq | n Hn | | t q Ht Hq | t Ht Hq | t q Hq | t Hq];
    inversion H2 as [v' Hf' | q' Hq' | n' Hn' | | t' q' Ht' Hq' | t' Ht' Hq'
                     | t' q' Hq' | t' Hq']; subst;
    try reflexivity; try congruence;
    try (inversion Hf; subst; try contradiction; try congruence;
         destruct Hn; discriminate);
    try (inversion Hf'; subst; try contradiction; try congruence;
         destruct Hn'; discriminate);
    try (destruct Hn; discriminate); try (destruct Hn'; discriminate);
    try (rewrite Hq in Hq'; discriminate Hq');
    try (rewrite Hq' in Hq; discriminate Hq).
Qed.

(** With nothing stored the load keeps the defaults, except for remaining:
    the stored session kind, being absent, is read as falsy where the value
    of remaining is chosen, and remaining becomes the break duration. *)
Example load_empty_storage :
  load ∅ initial_state = setRemaining DEFAULT_BREAK initial_state.
Proof. reflexivity. Qed.

End LoadRecords.

(** C3, as the claim has it, fails: with a settings record of 10 and 2
    minutes the load brings 600 and 120 seconds into memory, but not when
    the text of the tasks record does not parse: then the durations are the
    defaults, the settings record notwithstanding. *)
Lemma malformed_tasks_block_settings :
  workDuration (load stored_settings initial_state) = of_Z 600 /\
  breakDuration (load stored_settings initial_state) = of_Z 120 /\
  workDuration (load (<[LS_KEYS.tasks := TGarbage]> stored_settings) initial_state)
    = DEFAULT_WORK /\
  breakDuration (load (<[LS_KEYS.tasks := TGarbage]> stored_settings) initial_state)
    = DEFAULT_BREAK /\
  ~ settings_load_whatever_tasks.
Proof.
  repeat split; try reflexivity.
  intros H. destruct (H stored_settings TGarbage) as [Hw _].
  vm_compute in Hw. discriminate Hw.
Qed.

(** C3, amended: the load reads the three records in order under one error
    handler.  The tasks are loaded from their own record in every case: an
    array is taken, a record that is missing gives the empty list, anything
    else leaves the list as it is.  The load is cut short by a record that
    is malformed: a text that does not parse, [null] for the settings or
    the timer state, or a duration that is an object without a primitive
    value.  Then work duration, break duration and remaining all take
    their defaults, whatever the other records hold, and the session kind
    is kept.  Otherwise each duration is loaded from its own field of the
    settings: the default for a field that is missing, [null], [false], 0
    or the empty string; else the field as a number when that is finite (a
    number as it is, [true] as 1, a string or a nested value as the number
    that its text writes) and the default when it is not (a text that
    writes no number, or one beyond the range of the numbers); the session
    kind is loaded when the stored one is a boolean and kept otherwise; and
    remaining is loaded when the stored one is a finite number. *)
Theorem load_records (ls : storage) (s : state) :
  let s' := load ls s in
  tasks s' =
    match parsed ls LS_KEYS.tasks (JArr []) with
    | Some (JArr l) => l
    | _ => tasks s
    end /\
  (missing ls LS_KEYS.tasks -> tasks s' = []) /\
  (if loadable ls then
     exists ds dt,
       parsed ls LS_KEYS.settings (JObj ∅) = Some ds /\
       parsed ls LS_KEYS.state (JObj ∅) = Some dt /\
       loaded_duration DEFAULT_WORK (field ds "workDuration") (workDuration s') /\
       loaded_duration DEFAULT_BREAK (field ds "breakDuration") (breakDuration s') /\
       isWorkSession s' =
         match field dt "isWorkSession" with
         | VPrim (PBool b) => b
         | _ => isWorkSession s
         end /\
       (forall q, field dt "remaining" = VPrim (PNum (Fin q)) -> remaining s' = Fin q)
   else
     workDuration s' = DEFAULT_WORK /\
     breakDuration s' = DEFAULT_BREAK /\
     remaining s' = DEFAULT_WORK /\
     isWorkSession s' = isWorkSession s) /\
  (loadable ls = true -> missing ls LS_KEYS.settings ->
   workDuration s' = DEFAULT_WORK /\ breakDuration s' = DEFAULT_BREAK) /\
  (loadable ls = true -> missing ls LS_KEYS.state ->
   isWorkSession s' = isWorkSession s) /\
  (loadable ls = false <->
   parsed ls LS_KEYS.tasks (JArr []) = None \/
   (forall ds, parsed ls LS_KEYS.settings (JObj ∅) = Some ds ->
      ds = JPrim PNull \/ ds = JPrim PUndef \/
      field ds "workDuration" = VNested None \/
      field ds "breakDuration" = VNested None) \/
   (forall dt, parsed ls LS_KEYS.state (JObj ∅) = Some dt ->
      dt = JPrim PNull \/ dt = JPrim PUndef)).
Proof.
  intros s'.
  assert (Htasks : tasks s' =
                     match parsed ls LS_KEYS.tasks (JArr []) with
                     | Some (JArr l) => l
                     | _ => tasks s
                     end).
  { subst s'. destruct (loadable ls) eqn:E.
    - destruct (loadable_inv ls E)
        as (dk & ds & dt & wd & bd & Hk & Hs & Ht & Rs & Rt & Hw & Hb).
      rewrite (load_well_parsed ls s dk ds dt wd bd) by assumption.
      now rewrite Hk.
    - now rewrite load_ill_parsed. }
  split; [exact Htasks |]. split; [| split; [| split; [| split]]].
  - intros Hm. rewrite Htasks. now rewrite parsed_missing.
  - subst s'. destruct (loadable ls) eqn:E.
    + destruct (loadable_inv ls E)
        as (dk & ds & dt & wd & bd & Hk & Hs & Ht & Rs & Rt & Hw & Hb).
      exists ds, dt. rewrite (load_well_parsed ls s dk ds dt wd bd) by assumption.
      cbn [workDuration breakDuration isWorkSession remaining].
      do 2 (split; [assumption |]).
      split; [now apply duration_kept_loaded |].
      split; [now apply duration_kept_loaded |].
      split; [reflexivity |].
      intros q ->. reflexivity.
    + rewrite load_ill_parsed by assumption. repeat split.
  - intros E Hm. subst s'.
    destruct (loadable_inv ls E)
      as (dk & ds & dt & wd & bd & Hk & Hs & Ht & Rs & Rt & Hw & Hb).
    rewrite (load_well_parsed ls s dk ds dt wd bd) by assumption.
    rewrite parsed_missing in Hs by assumption. injection Hs as <-.
    cbn in Hw, Hb. injection Hw as <-. injection Hb as <-.
    split; reflexivity.
  - intros E Hm. subst s'.
    destruct (loadable_inv ls E)
      as (dk & ds & dt & wd & bd & Hk & Hs & Ht & Rs & Rt & Hw & Hb).
    rewrite (load_well_parsed ls s dk ds dt wd bd) by assumption.
    rewrite parsed_missing in Ht by assumption. injection Ht as <-.
    reflexivity.
  - unfold loadable, well_parsed.
    destruct (parsed ls LS_KEYS.tasks (JArr [])) as [dk |]; [| split; auto].
    destruct (parsed ls LS_KEYS.settings (JObj ∅)) as [ds |];
      [| split; [intros _; right; left; discriminate | reflexivity]].
    destruct (parsed ls LS_KEYS.state (JObj ∅)) as [dt |];
      [| split; [intros _; right; right; discriminate | reflexivity]].
    destruct (readable ds) eqn:Rs, (readable dt) eqn:Rt,
             (convertible (field ds "workDuration")) eqn:Cw,
             (convertible (field ds "breakDuration")) eqn:Cb;
      cbn [andb]; (split; [intros H; try discriminate H | intros H; try reflexivity]);
      try (right; right; intros dt' [= <-]; now apply readable_false);
      try (right; left; intros ds' [= <-];
           first [ apply readable_false in Rs; tauto
                 | right; right; left; now apply convertible_false
                 | right; right; right; now apply convertible_false ]).
    destruct H as [H | [H | H]]; [discriminate H | |].
      * destruct (H ds eq_refl) as [-> | [-> | [Hw | Hb]]];
          [discriminate Rs | discriminate Rs | |].
        -- rewrite Hw in Cw. discriminate Cw.
        -- rewrite Hb in Cb. discriminate Cb.
      * destruct (H dt eq_refl) as [-> | ->]; discriminate Rt.
Qed.

Lemma load_records_witness :
  tasks (load stored_settings initial_state) = [] /\
  workDuration (load stored_settings initial_state) = of_Z 600 /\
  isWorkSession (load stored_settings initial_state) = true /\
  tasks (load stored_all initial_state) = [mkTask "a" "Read" true 3] /\
  remaining (load stored_all initial_state) = of_Z 42 /\
  workDuration (load (<[LS_KEYS.state := TGarbage]> stored_all) initial_state)
    = DEFAULT_WORK /\
  workDuration (load stored_by_hand initial_state) = DEFAULT_WORK /\
  breakDuration (load stored_by_hand initial_state) = of_Z 600 /\
  workDuration (load stored_unconvertible initial_state) = DEFAULT_WORK.
Proof.
  destruct (load_records stored_settings initial_state) as (_ & Hk & Hok & _ & Hst & _).
  destruct (load_records stored_all initial_state) as (Hk' & _ & Hok' & _).
  destruct (load_records (<[LS_KEYS.state := TGarbage]> stored_all) initial_state)
    as (_ & _ & Hbad & _).
  destruct (load_records stored_by_hand initial_state) as (_ & _ & Hhand & _).
  destruct (load_records stored_unconvertible initial_state) as (_ & _ & Hun & _).
  split; [apply Hk; left; reflexivity |].
  split.
  { destruct Hok as (ds & dt & Hs & _ & Hw & _). injection Hs as <-.
    apply (loaded_duration_fun DEFAULT_WORK (VPrim (PNum (of_Z 600))) _ _ Hw).
    apply loaded_number. discriminate. }
  split; [apply Hst; [reflexivity | left; reflexivity] |].
  split; [exact Hk' |].
  split.
  { destruct Hok' as (ds & dt & _ & Ht & _ & _ & _ & Hr).
    injection Ht as <-. now apply Hr. }
  split; [exact (proj1 Hbad) |].
  destruct Hhand as (ds & dt & Hs & _ & Hw & Hb & _). injection Hs as <-.
  split; [| split].
  - apply (loaded_duration_fun DEFAULT_WORK (VPrim (PStr "1e400")) _ _ Hw).
    apply loaded_no_number; [discriminate | vm_compute; reflexivity].
  - apply (loaded_duration_fun DEFAULT_BREAK (VNested (Some "600")) _ _ Hb).
    apply loaded_nested. vm_compute. reflexivity.
  - exact (proj1 Hun).
Defined.

(** ** Persisting, then loading *)

Section RoundTrip.

Lemma json_obj_storable (t : obj) : storable_task t -> json_obj t = t.
Proof.
  intros H. apply map_eq. intros k. unfold json_obj. rewrite lookup_omap.
  destruct (t !! k) as [v |] eqn:E; [| reflexivity].
  simpl. exact (H k v E).
Qed.

Lemma map_json_obj_storable (l : list obj) :
  Forall storable_task l -> map json_obj l = l.
Proof.
  induction 1 as [| t l Ht _ IH]; [reflexivity |].
  simpl. now rewrite json_obj_storable, IH.
Qed.

Lemma storable_mkTask (id name : string) (done : bool) (n : Z) :
  storable_task (mkTask id name done n).
Proof.
  intros k v. unfold mkTask.
  rewrite !lookup_insert, lookup_empty.
  repeat case_decide; intros [= <-]; reflexivity.
Qed.

Lemma parsed_persist_tasks (s : state) (ls : storage) :
  parsed (persist s ls) LS_KEYS.tasks (JArr []) = Some (JArr (map json_obj (tasks s))).
Proof.
  unfold parsed, getItem_or, persist, persist_tasks.
  now rewrite lookup_insert_eq.
Qed.

Lemma parsed_persist_settings (s : state) (ls : storage) :
  parsed (persist s ls) LS_KEYS.settings (JObj ∅) =
    Some (JObj (VPrim <$> json_obj (<["workDuration" := PNum (workDuration s)]>
                                      (<["breakDuration" := PNum (breakDuration s)]> ∅)))).
Proof.
  unfold parsed, getItem_or, persist, persist_tasks, persist_state, persist_settings.
  rewrite lookup_insert_ne by discriminate.
  rewrite lookup_insert_ne by discriminate.
  now rewrite lookup_insert_eq.
Qed.

Lemma parsed_persist_state (s : state) (ls : storage) :
  parsed (persist s ls) LS_KEYS.state (JObj ∅) =
    Some (JObj (VPrim <$> json_obj (<["isWorkSession" := PBool (isWorkSession s)]>
                                      (<["remaining" := PNum (remaining s)]> ∅)))).
Proof.
  unfold parsed, getItem_or, persist, persist_tasks, persist_state.
  rewrite lookup_insert_ne by discriminate.
  now rewrite lookup_insert_eq.
Qed.

(** Reading back the two properties of a stored object [{k1: a, k2: b}]. *)
Lemma get_json_obj_first (k1 k2 : string) (a b : prim) :
  field (JObj (VPrim <$> json_obj (<[k1 := a]> (<[k2 := b]> ∅)))) k1
  = VPrim (default PUndef (json_prop a)).
Proof.
  unfold field, get_value, json_obj.
  rewrite lookup_fmap, lookup_omap, lookup_insert_eq. cbn [mbind option_bind].
  now destruct (json_prop a).
Qed.

Lemma get_json_obj_second (k1 k2 : string) (a b : prim) :
  k1 <> k2 ->
  field (JObj (VPrim <$> json_obj (<[k1 := a]> (<[k2 := b]> ∅)))) k2
  = VPrim (default PUndef (json_prop b)).
Proof.
  intros H. unfold field, get_value, json_obj.
  rewrite lookup_fmap, lookup_omap, lookup_insert_ne, lookup_insert_eq by assumption.
  cbn [mbind option_bind]. now destruct (json_prop b).
Qed.

Lemma duration_kept_accepted (n dflt : num) :
  accepted_duration n ->
  duration_read (VPrim (default PUndef (json_prop (PNum n)))) dflt = Some n /\
  duration_kept n dflt = n.
Proof.
  intros [Hf Ht]. cbn [json_prop]. rewrite Hf. cbn [default from_option id].
  rewrite duration_read_prim. unfold duration_kept, js_or.
  rewrite Ht, Hf. now split.
Qed.

(** The load of what the persist effects wrote of a persistable state. *)
Lemma load_persist (s : state) (ls : storage) (s0 : state) :
  persistable s ->
  load (persist s ls) s0 =
    {| isRunning := isRunning s0;
       isWorkSession := isWorkSession s;
       workDuration := workDuration s;
       breakDuration := breakDuration s;
       remaining := remaining s;
       tasks := tasks s;
       taskInput := taskInput s0;
       selectedTaskId := selectedTaskId s0 |}.
Proof.
  intros (Hw & Hb & Hr & Ht).
  destruct (duration_kept_accepted _ DEFAULT_WORK Hw) as [Rw Kw].
  destruct (duration_kept_accepted _ DEFAULT_BREAK Hb) as [Rb Kb].
  rewrite (load_well_parsed _ _ _ _ _ (workDuration s) (breakDuration s)
             (parsed_persist_tasks s ls)
             (parsed_persist_settings s ls)
             (parsed_persist_state s ls) eq_refl eq_refl);
    [| now rewrite get_json_obj_first
     | now rewrite get_json_obj_second by discriminate].
  rewrite !get_json_obj_first, !get_json_obj_second by discriminate.
  cbn [json_prop]. rewrite Hr. cbn [default from_option id finite_number].
  rewrite Hr, Kw, Kb.
  now rewrite map_json_obj_storable.
Qed.

End RoundTrip.

(** C8: persisting the settings, the timer state and the tasks of a state
    and then loading what was stored gives the same work and break
    duration, session kind, remaining and tasks.  This is for the states
    of the data model: durations that are finite and not 0, remaining a
    finite number, and tasks whose property values are JSON values; they
    are the states that a session over stored data of the data model
    reaches. *)
Theorem persist_then_load (s : state) (ls : storage) (s0 : state) :
  persistable s ->
  let s' := load (persist s ls) s0 in
  workDuration s' = workDuration s /\
  breakDuration s' = breakDuration s /\
  isWorkSession s' = isWorkSession s /\
  remaining s' = remaining s /\
  tasks s' = tasks s.
Proof.
  intros Hs s'. subst s'.
  rewrite load_persist by assumption. repeat split.
Qed.

Lemma persist_then_load_witness :
  let s' := load (persist session ∅) initial_state in
  workDuration s' = of_Z 1500 /\
  breakDuration s' = of_Z 300 /\
  isWorkSession s' = false /\
  remaining s' = of_Z 0 /\
  tasks s' = [mkTask "b" "Write report" false 2; mkTask "a" "Read" true 3].
Proof.
  apply (persist_then_load session ∅ initial_state).
  split; [split; reflexivity |]. split; [split; reflexivity |].
  split; [reflexivity |].
  repeat constructor; apply storable_mkTask.
Defined.

(** ** Reachable states *)

Section Invariant.

Lemma is_pos_nat (a : num) : is_pos a -> is_nat a.
Proof. intros (z & Hz & ->). exists z. split; [lia | reflexivity]. Qed.

Lemma truthy_of_Z (z : Z) : truthy (PNum (of_Z z)) = negb (z =? 0).
Proof. cbn [truthy of_Z]. f_equal. apply (eqb_of_Z z 0). Qed.

Lemma duration_read_pos (v : jvalue) (dflt : num) :
  nat_field v -> is_pos dflt ->
  exists n, duration_read v dflt = Some n /\ is_pos n /\ duration_kept n dflt = n.
Proof.
  intros Hv Hd.
  assert (H : exists n, duration_read v dflt = Some n /\ is_pos n).
  { destruct Hv as [-> | (z & Hz & ->)]; rewrite duration_read_prim; unfold js_or.
    - now exists dflt.
    - rewrite truthy_of_Z. destruct (Z.eqb_spec z 0) as [-> | Hne]; [now exists dflt |].
      exists (of_Z z). split; [reflexivity |]. exists z. split; [lia | reflexivity]. }
  destruct H as (n & Hn & Hp). exists n. do 2 (split; [assumption |]).
  unfold duration_kept. now destruct Hp as (z & _ & ->).
Qed.

Lemma not_well_parsed (ls : storage) : well_parsed ls = false -> loadable ls = false.
Proof. unfold loadable. now intros ->. Qed.

(** The tasks that the load leaves, in every case. *)
Lemma load_tasks (ls : storage) (s : state) :
  tasks (load ls s) =
    match parsed ls LS_KEYS.tasks (JArr []) with
    | Some (JArr l) => l
    | _ => tasks s
    end.
Proof.
  destruct (loadable ls) eqn:E.
  - destruct (loadable_inv ls E)
      as (dk & ds & dt & wd & bd & Hk & Hs & Ht & Rs & Rt & Hw & Hb).
    rewrite (load_well_parsed ls s dk ds dt wd bd) by assumption. now rewrite Hk.
  - now rewrite load_ill_parsed.
Qed.

Lemma DEFAULT_WORK_pos : is_pos DEFAULT_WORK.
Proof. exists 1500. split; [lia | reflexivity]. Qed.

Lemma DEFAULT_BREAK_pos : is_pos DEFAULT_BREAK.
Proof. exists 300. split; [lia | reflexivity]. Qed.

Lemma timer_ok_initial : timer_ok initial_state.
Proof.
  split; [apply DEFAULT_WORK_pos |]. split; [apply DEFAULT_BREAK_pos |].
  apply is_pos_nat, DEFAULT_WORK_pos.
Qed.

Lemma timer_ok_load (ls : storage) (s : state) :
  sound_storage ls -> timer_ok (load ls s).
Proof.
  intros [Hset Hst]. destruct (well_parsed ls) eqn:E.
  - destruct (well_parsed_inv ls E) as (dk & ds & dt & Hk & Hs & Ht & Rs & Rt).
    destruct (Hset ds Hs) as [Hw Hb]. specialize (Hst dt Ht).
    destruct (duration_read_pos _ _ Hw DEFAULT_WORK_pos) as (wd & Rw & Pw & Kw).
    destruct (duration_read_pos _ _ Hb DEFAULT_BREAK_pos) as (bd & Rb & Pb & Kb).
    rewrite (load_well_parsed ls s dk ds dt wd bd) by assumption.
    unfold timer_ok. cbn [workDuration breakDuration remaining].
    rewrite Kw, Kb. split; [exact Pw |]. split; [exact Pb |].
    destruct Hst as [-> | (z & Hz & ->)].
    + cbn [finite_number]. destruct (value_truthy _); now apply is_pos_nat.
    + cbn [finite_number of_Z is_finite]. now exists z.
  - rewrite load_ill_parsed by now apply not_well_parsed.
    split; [apply DEFAULT_WORK_pos |]. split; [apply DEFAULT_BREAK_pos |].
    apply is_pos_nat, DEFAULT_WORK_pos.
Qed.

Lemma timer_ok_tick (s : state) : timer_ok s -> timer_ok (tick s).
Proof.
  intros Hs. pose proof Hs as (Hw & Hb & (z & Hz & Hr)). unfold tick.
  destruct (isRunning s); [| exact Hs].
  unfold tick_callback. rewrite Hr, gtb_of_Z.
  destruct (Z.ltb_spec 0 z).
  - split; [exact Hw |]. split; [exact Hb |].
    cbn [remaining setRemaining]. rewrite sub_of_Z.
    exists (z - 1). split; [lia | reflexivity].
  - split; [| split].
    + now destruct (isWorkSession s && truthy (selectedTaskId s)).
    + now destruct (isWorkSession s && truthy (selectedTaskId s)).
    + cbn [remaining setRemaining].
      destruct (isWorkSession s && truthy (selectedTaskId s));
        cbn [workDuration breakDuration setTasks];
        destruct (negb (isWorkSession s)); now apply is_pos_nat.
Qed.

Lemma timer_ok_updateDurations (w b : num) (s : state) :
  is_nan w = false -> is_nan b = false -> timer_ok (updateDurations w b s).
Proof.
  intros Hw Hb. unfold updateDurations.
  rewrite !clamp_seconds by (lia || assumption).
  pose proof (clamped_range 1 180 w ltac:(lia)).
  pose proof (clamped_range 1 60 b ltac:(lia)).
  assert (Pw : is_pos (of_Z (60 * clamped 1 180 w)))
    by (eexists; split; [| reflexivity]; lia).
  assert (Pb : is_pos (of_Z (60 * clamped 1 60 b)))
    by (eexists; split; [| reflexivity]; lia).
  split; [exact Pw |]. split; [exact Pb |].
  cbn [remaining setRemaining]. destruct (isWorkSession s); now apply is_pos_nat.
Qed.

(** Every event that [sound_stored] allows keeps [timer_ok]. *)
Lemma timer_ok_run (ev : event) (s : state) :
  sound_stored ev -> timer_ok s -> timer_ok (run ev s).
Proof.
  intros Hev Hs. destruct ev; cbn [run].
  - now apply timer_ok_load.
  - now apply timer_ok_tick.
  - exact Hs.
  - destruct Hs as (Hw & Hb & Hr). repeat split; try assumption.
    unfold resetTimer. cbn [remaining setRemaining].
    destruct (isWorkSession s); now apply is_pos_nat.
  - destruct Hs as (Hw & Hb & Hr). repeat split; try assumption.
    unfold switchSession. cbn [remaining setRemaining setIsWorkSession].
    destruct (negb _); now apply is_pos_nat.
  - destruct Hs as (Hw & Hb & Hr). repeat split; try assumption.
    now apply is_pos_nat.
  - destruct Hs as (Hw & Hb & Hr). repeat split; try assumption.
    now apply is_pos_nat.
  - destruct Hev. now apply timer_ok_updateDurations.
  - unfold addTask. destruct (is_empty _); [exact Hs |].
    now destruct (negb (truthy (selectedTaskId s))).
  - exact Hs.
  - unfold deleteTask. now destruct (strict_eq (selectedTaskId s) id).
  - exact Hs.
  - exact Hs.
  - exact Hs.
Qed.

Lemma is_pos_accepted (a : num) : is_pos a -> accepted_duration a.
Proof.
  intros (z & Hz & ->). split; [reflexivity |].
  rewrite truthy_of_Z. apply negb_true_iff, Z.eqb_neq. lia.
Qed.

Lemma storable_task_insert (k : string) (v : prim) (t : obj) :
  storable v -> storable_task t -> storable_task (<[k := v]> t).
Proof.
  intros Hv Ht k' v'. rewrite lookup_insert.
  case_decide; [intros [= <-]; exact Hv | apply Ht].
Qed.

(** The count written by the tick is a JSON value when the one read is. *)
Lemma storable_credit (sel : prim) (t : obj) :
  storable_task t -> storable_task (credit sel t).
Proof.
  intros Ht. unfold credit. destruct (strict_eq _ _); [| exact Ht].
  apply storable_task_insert; [| exact Ht].
  unfold get. destruct (t !! "pomodoros") as [v |] eqn:E; [| reflexivity].
  specialize (Ht _ _ E). cbn [default from_option id].
  destruct v as [| | [] | [q | | |] | [| c x]];
    try discriminate Ht; try reflexivity.
  unfold js_or. destruct (truthy (PNum (Fin q))); reflexivity.
Qed.

Lemma storable_map (f : obj -> obj) (l : list obj) :
  (forall t, storable_task t -> storable_task (f t)) ->
  Forall storable_task l -> Forall storable_task (map f l).
Proof.
  intros Hf. induction 1; constructor; auto.
Qed.

Lemma storable_tick (s : state) :
  Forall storable_task (tasks s) -> Forall storable_task (tasks (tick s)).
Proof.
  intros H. unfold tick, tick_callback.
  destruct (isRunning s); [| exact H].
  destruct (gtb _ _); [exact H |].
  destruct (isWorkSession s && truthy (selectedTaskId s)); [| exact H].
  cbn [tasks setRemaining setIsWorkSession setTasks].
  apply storable_map; [apply storable_credit | exact H].
Qed.

Lemma storable_load (ls : storage) (s : state) :
  storable_tasks ls ->
  Forall storable_task (tasks s) -> Forall storable_task (tasks (load ls s)).
Proof.
  intros Hls H.
  rewrite load_tasks. destruct (parsed ls LS_KEYS.tasks (JArr [])) as [[| | l] |] eqn:Hk;
    try exact H.
  now apply Hls.
Qed.

(** Every event of the data model keeps the tasks storable. *)
Lemma storable_run (ev : event) (s : state) :
  of_data_model ev ->
  Forall storable_task (tasks s) -> Forall storable_task (tasks (run ev s)).
Proof.
  intros Hev H. destruct ev; cbn [run]; try exact H.
  - apply storable_load; [apply Hev | exact H].
  - now apply storable_tick.
  - unfold addTask. destruct (is_empty _); [exact H |].
    assert (Forall storable_task
              (mkTask (new_id e) (trim (taskInput s)) false 0 :: tasks s))
      by (constructor; [apply storable_mkTask | exact H]).
    now destruct (negb (truthy (selectedTaskId s))).
  - unfold toggleTaskDone. cbn [tasks setTasks].
    apply storable_map; [| exact H].
    intros t Ht. destruct (strict_eq _ _); [| exact Ht].
    now apply storable_task_insert.
  - rewrite deleteTask_tasks. apply List.Forall_forall.
    intros t Ht. apply List.filter_In in Ht.
    now apply (proj1 (List.Forall_forall _ _) H).
  - unfold editTaskName. cbn [tasks setTasks].
    apply storable_map; [| exact H].
    intros t Ht. destruct (strict_eq _ _); [| exact Ht].
    now apply storable_task_insert.
Qed.

Lemma of_data_model_sound (ev : event) : of_data_model ev -> sound_stored ev.
Proof. destruct ev; cbn; tauto. Qed.

(** The states of a session over data of the data model are persistable. *)
Lemma reachable_persistable (s : state) :
  reachable of_data_model s -> persistable s.
Proof.
  intros H.
  assert (Hinv : timer_ok s /\ Forall storable_task (tasks s)).
  { induction H as [| ev s _ [IHt IHs] Hev].
    - split; [apply timer_ok_initial | constructor].
    - split; [apply timer_ok_run; [now apply of_data_model_sound | exact IHt] |].
      now apply storable_run. }
  destruct Hinv as [(Hw & Hb & (z & _ & Hr)) Ht].
  split; [now apply is_pos_accepted |]. split; [now apply is_pos_accepted |].
  split; [now rewrite Hr | exact Ht].
Qed.

Lemma not_is_nat_negative (z : Z) : z < 0 -> ~ is_nat (of_Z z).
Proof.
  intros Hz (z' & Hz' & E). apply of_Z_inj in E. lia.
Qed.

End Invariant.

(** C9, as the claim has it, fails: the load takes any finite number for
    remaining, a negative one too. *)
Lemma load_negative_remaining :
  reachable any_stored (load stored_negative initial_state) /\
  remaining (load stored_negative initial_state) = of_Z (-5) /\
  ltb (remaining (load stored_negative initial_state)) (of_Z 0) = true /\
  ~ is_nat (remaining (load stored_negative initial_state)).
Proof.
  split; [| split; [| split]].
  - apply (reach_run any_stored (Load stored_negative)); [constructor | exact I].
  - reflexivity.
  - reflexivity.
  - change (~ is_nat (of_Z (-5))). apply not_is_nat_negative. lia.
Qed.

(** C9, amended: remaining is a non-negative integer (and the two
    durations are positive integers) in every state reached from the
    initial state by loads of stored data whose durations and remaining are
    missing or non-negative integers, ticks, reset, switch, the two mode
    buttons, duration updates with numbers for minutes, and the task
    handlers. *)
Theorem remaining_nonnegative (s : state) :
  reachable sound_stored s ->
  is_nat (remaining s) /\ is_pos (workDuration s) /\ is_pos (breakDuration s).
Proof.
  intros H.
  assert (Hok : timer_ok s).
  { induction H as [| ev s _ IH Hev].
    - apply timer_ok_initial.
    - now apply timer_ok_run. }
  destruct Hok as (Hw & Hb & Hr). auto.
Qed.

Lemma remaining_nonnegative_witness :
  let s := run Tick (run Tick (run StartPause
             (run (UpdateDurations (of_Z 0) (of_Z 5)) (run (Load stored_all) initial_state)))) in
  remaining s = of_Z 298 /\ is_nat (remaining s).
Proof.
  intros s. split; [reflexivity |].
  apply (remaining_nonnegative s).
  repeat (apply reach_run; [| try exact I]).
  - constructor.
  - split.
    + intros ds [= <-]. split; right; [exists 600 | exists 120]; (split; [lia | reflexivity]).
    + intros dt [= <-]. right. exists 42. split; [lia | reflexivity].
  - split; reflexivity.
Defined.

(** * Further properties *)

(** ** The timer buttons *)

(** X1: Switch pressed twice comes to the same as Reset: the timer is
    stopped, in the session kind it was in, at that kind's full duration. *)
Theorem switch_twice_is_reset (s : state) :
  switchSession (switchSession s) = resetTimer s.
Proof. destruct s as [r w wd bd rem ts inp sel]. now destruct w. Qed.

(** X2: the Focus and Break buttons do what Reset does when the timer is
    already in the session kind of the button, and what Switch does when it
    is in the other one. *)
Theorem mode_button_is_reset_or_switch (s : state) :
  selectFocus s = (if isWorkSession s then resetTimer s else switchSession s) /\
  selectBreak s = (if isWorkSession s then switchSession s else resetTimer s).
Proof. destruct s as [r w wd bd rem ts inp sel]. now destruct w. Qed.

(** ** Editing the tasks *)

Section TaskEdits.

Lemma get_insert_ne (t : obj) (k k' : string) (v : prim) :
  k <> k' -> get (<[k := v]> t) k' = get t k'.
Proof. intros H. unfold get. now rewrite lookup_insert_ne. Qed.



Lemma ids_map (f : obj -> obj) (l : list obj) :
  (forall t, get (f t) "id" = get t "id") -> ids (map f l) = ids l.
Proof.
  intros H. unfold ids. rewrite List.map_map.
  apply List.map_ext. intros t. apply H.
Qed.

End TaskEdits.

(** X23: [addTask] with a name that is empty or white space only changes
    nothing; with a name that trims to something not empty, the list
    becomes a new task followed by the former list as it was, the new task
    being [{id, name, done: false, pomodoros: 0}] with the trimmed name and
    with the id that the platform makes, and the input is emptied.  The
    ids after the call are distinct exactly when they were before it and
    the new id is the id of no task of the list.  Without
    [crypto.randomUUID], calls at different milliseconds get different
    ids. *)
Theorem addTask_prepends (e : env) (s : state) :
  (trim (taskInput s) = "" -> addTask e s = s) /\
  (trim (taskInput s) <> "" ->
   tasks (addTask e s) = mkTask (new_id e) (trim (taskInput s)) false 0 :: tasks s /\
   taskInput (addTask e s) = "" /\
   (List.NoDup (ids (tasks (addTask e s))) <->
    List.NoDup (ids (tasks s)) /\ ~ In (PStr (new_id e)) (ids (tasks s)))) /\
  (forall e' : env,
     randomUUID e = None -> randomUUID e' = None ->
     Date_now e <> Date_now e' -> new_id e <> new_id e').
Proof.
  split; [apply addTask_blank |].
  split; [| intros e'; apply new_id_timestamps].
  intros Hname. split; [now apply addTask_tasks |]. split.
  - unfold addTask. rewrite (proj2 (is_empty_false _) Hname).
    now destruct (negb (truthy (selectedTaskId s))).
  - rewrite addTask_tasks by assumption. cbn [ids map]. fold (ids (tasks s)).
    rewrite (proj1 (get_mkTask _ _ _ _)), List.NoDup_cons_iff. tauto.
Qed.

Lemma addTask_prepends_witness :
  addTask secure_env (setTaskInput "   " typing) = setTaskInput "   " typing /\
  tasks (addTask secure_env typing) =
    [mkTask "7f1c2d9e-0b6a-4c1e-9a57-3d2f8e4b6c10" "Write report" false 0;
     mkTask "a" "Read" true 3] /\
  List.NoDup (ids (tasks (addTask secure_env typing))).
Proof.
  destruct (addTask_prepends secure_env (setTaskInput "   " typing)) as (Hblank & _).
  destruct (addTask_prepends secure_env typing) as (_ & Hadd & _).
  destruct (Hadd ltac:(discriminate)) as (Ht & _ & Hn).
  split; [apply Hblank; reflexivity |]. split; [exact Ht |].
  apply Hn. split.
  - apply List.NoDup_cons; [intros [] | apply List.NoDup_nil].
  - intros [Heq | []]. discriminate Heq.
Defined.



(** X4: of two renames of the same task the second one stands; and a
    rename and a done toggle, of the same task or of two tasks, can be made
    in either order. *)
Theorem rename_overwrites_and_commutes (id id' name name' : prim) (s : state) :
  editTaskName id name' (editTaskName id name s) = editTaskName id name' s /\
  toggleTaskDone id' (editTaskName id name s)
    = editTaskName id name (toggleTaskDone id' s).
Proof.
  destruct s as [r w wd bd rem ts inp sel].
  unfold editTaskName, toggleTaskDone, setTasks. cbn [tasks isRunning isWorkSession
    workDuration breakDuration remaining taskInput selectedTaskId].
  split; f_equal; rewrite !List.map_map; apply List.map_ext; intros t.
  - destruct (strict_eq (get t "id") id) eqn:E.
    + rewrite get_insert_ne by discriminate. rewrite E. apply insert_insert_eq.
    + now rewrite E.
  - destruct (strict_eq (get t "id") id) eqn:E, (strict_eq (get t "id") id') eqn:E';
      rewrite ?get_insert_ne by discriminate; rewrite ?E, ?E'; try reflexivity.
    apply insert_insert_ne. discriminate.
Qed.

(** X5: adding a task and deleting it again gives back the task list, when
    the id that the platform supplied was the id of no task: the tasks are
    as before the two calls, and the selection is the one before if that
    was a task (truthy and not the new id), and [null] otherwise. *)
Theorem add_then_delete (e : env) (s : state) :
  trim (taskInput s) <> "" ->
  absent (PStr (new_id e)) (tasks s) ->
  let s' := deleteTask (PStr (new_id e)) (addTask e s) in
  tasks s' = tasks s /\
  selectedTaskId s' =
    (if truthy (selectedTaskId s) && negb (strict_eq (selectedTaskId s) (PStr (new_id e)))
     then selectedTaskId s else PNull).
Proof.
  intros Hname Hfresh s'. subst s'. split.
  - rewrite deleteTask_tasks, addTask_tasks by assumption.
    cbn [List.filter]. rewrite (proj1 (get_mkTask _ _ _ _)).
    cbn [strict_eq]. rewrite String.eqb_refl. cbn [negb].
    now apply filter_absent.
  - rewrite deleteTask_selected, addTask_selected by assumption.
    destruct (truthy (selectedTaskId s)); cbn [andb].
    + now destruct (strict_eq (selectedTaskId s) (PStr (new_id e))).
    + cbn [strict_eq]. now rewrite String.eqb_refl.
Qed.

Lemma add_then_delete_witness :
  tasks (deleteTask (PStr (new_id secure_env)) (addTask secure_env typing))
    = [mkTask "a" "Read" true 3] /\
  selectedTaskId (deleteTask (PStr (new_id secure_env)) (addTask secure_env typing))
    = PStr "a".
Proof.
  apply (add_then_delete secure_env typing).
  - discriminate.
  - intros t [<- | []]. reflexivity.
Defined.

(** ** Loading and persisting *)

Section LoadSafe.

Lemma duration_kept_finite (n dflt : num) :
  is_finite dflt = true -> is_finite (duration_kept n dflt) = true.
Proof.
  intros H. unfold duration_kept. now destruct (is_finite n) eqn:E.
Qed.


End LoadSafe.

(** X6: whatever the storage holds, the load effect does not throw, the
    two durations it leaves are finite numbers, and it leaves the running
    flag, the task input and the selection as they were. *)
Theorem load_is_safe (ls : storage) (s : state) :
  load_effect ls s = Ret tt (load ls s) /\
  is_finite (workDuration (load ls s)) = true /\
  is_finite (breakDuration (load ls s)) = true /\
  isRunning (load ls s) = isRunning s /\
  taskInput (load ls s) = taskInput s /\
  selectedTaskId (load ls s) = selectedTaskId s.
Proof.
  split.
  - unfold load, load_effect, try_catch.
    destruct (load_body ls s) as [[] s' | s']; reflexivity.
  - destruct (loadable ls) eqn:E.
    + destruct (loadable_inv ls E)
        as (dk & ds & dt & wd & bd & Hk & Hs & Ht & Rs & Rt & Hw & Hb).
      rewrite (load_well_parsed ls s dk ds dt wd bd) by assumption.
      cbn [workDuration breakDuration isRunning taskInput selectedTaskId].
      repeat split; now apply duration_kept_finite.
    + rewrite load_ill_parsed by assumption. repeat split.
Qed.



(** ** The theme *)

(** X8: whatever the theme was, a toggle leaves it light or dark; two
    toggles bring a light or dark theme back to itself; and the label of
    the button names the theme that the toggle switches to. *)
Theorem toggleTheme_light_dark (theme : string) :
  (toggleTheme theme = "light" \/ toggleTheme theme = "dark") /\
  (theme = "light" \/ theme = "dark" -> toggleTheme (toggleTheme theme) = theme) /\
  themeAria theme = "Switch to " +:+ toggleTheme theme +:+ " mode".
Proof.
  unfold toggleTheme, themeAria. split; [| split].
  - destruct (String.eqb theme "light"); auto.
  - intros [-> | ->]; reflexivity.
  - reflexivity.
Qed.

Lemma toggleTheme_light_dark_witness :
  toggleTheme (toggleTheme "dark") = "dark".
Proof. apply (proj1 (proj2 (toggleTheme_light_dark "dark"))). now right. Defined.

(** ** The time display *)

Section Display.

Lemma append_cons (x : ascii) (a b : string) :
  String x a +:+ b = String x (a +:+ b).
Proof. reflexivity. Qed.

Lemma append_assoc (a b c : string) : (a +:+ b) +:+ c = a +:+ (b +:+ c).
Proof.
  induction a as [| x a IH]; [reflexivity |].
  rewrite !append_cons. now f_equal.
Qed.

Lemma length_append (a b : string) :
  String.length (a +:+ b) = (String.length a + String.length b)%nat.
Proof.
  induction a as [| x a IH]; [reflexivity |].
  rewrite append_cons. cbn [String.length]. now rewrite IH.
Qed.

(** Two texts that end in parts of the same length are equal part by part. *)
Lemma append_cancel (a b c d : string) :
  a +:+ c = b +:+ d -> String.length c = String.length d -> a = b /\ c = d.
Proof.
  revert b. induction a as [| x a IH]; intros [| y b] H Hlen.
  - now split.
  - exfalso. change (c = String y (b +:+ d)) in H. rewrite H in Hlen.
    cbn [String.length] in Hlen. rewrite length_append in Hlen. lia.
  - exfalso. change (String x (a +:+ c) = d) in H. rewrite <- H in Hlen.
    cbn [String.length] in Hlen. rewrite length_append in Hlen. lia.
  - rewrite !append_cons in H. injection H as -> H.
    destruct (IH b H Hlen) as [-> ->]. now split.
Qed.

Lemma decimal_from_append (acc : Z) (a b : string) :
  decimal_from acc (a +:+ b) = decimal_from (decimal_from acc a) b.
Proof.
  revert acc. induction a as [| x a IH]; intros acc; [reflexivity |].
  rewrite append_cons. cbn [decimal_from]. apply IH.
Qed.

Lemma pretty_N_go_append (x : N) (s : string) :
  pretty_N_go x s = pretty_N_go x "" +:+ s.
Proof.
  revert s. induction (N.lt_wf_0 x) as [x _ IH]. intros s.
  destruct (N.eq_dec x 0%N) as [-> | Hx]; [reflexivity |].
  assert (Hpos : (0 < x)%N) by lia.
  rewrite (pretty_N_go_step x s), (pretty_N_go_step x "") by assumption.
  rewrite (IH (x `div` 10)%N ltac:(apply N.div_lt; lia) (String _ s)).
  rewrite (IH (x `div` 10)%N ltac:(apply N.div_lt; lia) (String _ "")).
  now rewrite append_assoc.
Qed.

Lemma decimal_of_char (d : N) :
  (d < 10)%N -> Z.of_N (N_of_ascii (pretty_N_char d)) - 48 = Z.of_N d.
Proof.
  intros H.
  assert (d = 0 \/ d = 1 \/ d = 2 \/ d = 3 \/ d = 4 \/ d = 5 \/ d = 6 \/ d = 7
          \/ d = 8 \/ d = 9)%N as Hd by lia.
  repeat (destruct Hd as [-> | Hd]; [reflexivity |]). now subst.
Qed.

Lemma decimal_pretty_N_go (x : N) :
  decimal_from 0 (pretty_N_go x "") = Z.of_N x.
Proof.
  induction (N.lt_wf_0 x) as [x _ IH].
  destruct (N.eq_dec x 0%N) as [-> | Hx]; [reflexivity |].
  rewrite pretty_N_go_step by lia.
  rewrite pretty_N_go_append, decimal_from_append.
  rewrite IH by (apply N.div_lt; lia).
  cbn [decimal_from]. rewrite decimal_of_char by (apply N.mod_lt; lia).
  rewrite (N.div_mod x 10) at 3 by lia. lia.
Qed.

(** The decimal digits of a non-negative integer write that integer. *)
Lemma decimal_pretty (z : Z) : 0 <= z -> decimal_value (pretty z) = z.
Proof.
  intros Hz. destruct z as [| p | p]; [reflexivity | | lia].
  unfold decimal_value, pretty, pretty_Z, pretty, pretty_positive, pretty, pretty_N.
  rewrite decide_False by discriminate.
  now rewrite decimal_pretty_N_go.
Qed.

Lemma decimal_repeat_zero (n : nat) (s : string) :
  decimal_value (repeat_char n "0" +:+ s) = decimal_value s.
Proof.
  induction n as [| n IH]; [reflexivity |].
  cbn [repeat_char]. rewrite append_cons. exact IH.
Qed.

Lemma decimal_padStart (z : Z) :
  0 <= z -> decimal_value (padStart 2 "0" (pretty z)) = z.
Proof.
  intros Hz. unfold padStart. rewrite decimal_repeat_zero. now apply decimal_pretty.
Qed.

(** Up to 99 the padded digits are two. *)
Lemma padStart_two_digits (k : Z) :
  0 <= k < 100 -> padStart 2 "0" (pretty k) = two_digits k.
Proof.
  intros Hk.
  assert (Hall : forallb (fun n => String.eqb (padStart 2 "0" (pretty (Z.of_nat n)))
                                              (two_digits (Z.of_nat n)))
                         (seq 0 100) = true) by (vm_compute; reflexivity).
  rewrite forallb_forall in Hall.
  specialize (Hall (Z.to_nat k)). rewrite Z2Nat.id in Hall by lia.
  apply String.eqb_eq, Hall, in_seq. lia.
Qed.

Lemma Number_toString_of_Z (z : Z) :
  Z.abs z <= 2 ^ 53 -> Number_toString (of_Z z) = Some (pretty z).
Proof.
  intros Hz. unfold Number_toString, of_Z. rewrite Qred_inject_Z.
  cbn [inject_Z Qden Qnum]. cbn [Pos.eqb andb].
  now rewrite (proj2 (Z.leb_le _ _) Hz).
Qed.

Lemma Qeq_bool_inject_Z_0 (T : Z) : T <> 0 -> Qeq_bool (inject_Z T) 0 = false.
Proof.
  intros H. destruct (Qeq_bool (inject_Z T) 0) eqn:E; [| reflexivity].
  apply Qeq_bool_iff in E. change 0%Q with (inject_Z 0) in E.
  exfalso. now apply H, inject_Z_injective.
Qed.

Lemma num_div_of_Z (r T : Z) :
  T <> 0 -> num_div (of_Z r) (of_Z T) = round64 (inject_Z r / inject_Z T).
Proof.
  intros H. unfold num_div, of_Z. now rewrite Qeq_bool_inject_Z_0.
Qed.

Lemma Qfloor_between (y : Q) (k : Z) :
  (inject_Z k <= y)%Q -> (y < inject_Z (k + 1))%Q -> Qfloor y = k.
Proof.
  intros H1 H2. apply Qfloor_resp_le in H1. rewrite Qfloor_Z in H1.
  pose proof (Qfloor_le y) as H3.
  assert (H4 : (inject_Z (Qfloor y) < inject_Z (k + 1))%Q) by lra.
  rewrite <- Zlt_Qlt in H4. lia.
Qed.

(** The quotient by 60 is rounded, but not as far as the next integer. *)
Lemma floor_div_60 (n : Z) :
  0 <= n < 2 ^ 52 -> floor (num_div (of_Z n) (of_Z 60)) = of_Z (n / 60).
Proof.
  intros Hn. rewrite num_div_of_Z by lia.
  pose proof (Z.div_mod n 60 ltac:(lia)) as Hdm.
  pose proof (Z.mod_pos_bound n 60 ltac:(lia)) as Hmod.
  set (k := n / 60) in *.
  assert (Hk : 0 <= k < 2 ^ 47) by lia.
  assert (Hq : (inject_Z n == 60 * inject_Z k + inject_Z (n mod 60))%Q).
  { rewrite Hdm at 1. rewrite inject_Z_plus, inject_Z_mult. reflexivity. }
  assert (Hm1 : (0 <= inject_Z (n mod 60))%Q).
  { change 0%Q with (inject_Z 0). rewrite <- Zle_Qle. lia. }
  assert (Hm2 : (inject_Z (n mod 60) <= 59)%Q).
  { change 59%Q with (inject_Z 59). rewrite <- Zle_Qle. lia. }
  destruct (round64_between (inject_Z k) (inject_Z (64 * k + 63) * 2 ^ (-6))
                            (inject_Z n / inject_Z 60)) as (y & -> & _ & Hy1 & Hy2).
  - apply binary64_Z. lia.
  - exists (64 * k + 63), (-6). split; [lia |]. split; [lia | reflexivity].
  - change (2 ^ (-6))%Q with (1 # 64). rewrite inject_Z_plus, inject_Z_mult.
    change (inject_Z 64) with 64%Q. change (inject_Z 63) with 63%Q.
    change (inject_Z 60) with 60%Q. split.
    + apply Qle_shift_div_l; [reflexivity | lra].
    + apply Qle_shift_div_r; [reflexivity | lra].
  - cbn [floor]. f_equal. apply Qfloor_between; [exact Hy1 |].
    change (2 ^ (-6))%Q with (1 # 64) in Hy2.
    rewrite inject_Z_plus, inject_Z_mult in Hy2. rewrite inject_Z_plus.
    change (inject_Z 64) with 64%Q in Hy2. change (inject_Z 63) with 63%Q in Hy2.
    change (inject_Z 1) with 1%Q. lra.
Qed.

Lemma rem_60 (n : Z) :
  0 <= n -> num_rem (of_Z n) (of_Z 60) = of_Z (n mod 60).
Proof.
  intros Hn. unfold num_rem, of_Z.
  replace (Qeq_bool (inject_Z 60) 0) with false by reflexivity.
  f_equal. apply Qred_eq_inject_Z.
  assert (Ht : Qtrunc (inject_Z n / inject_Z 60) = n / 60).
  { unfold Qtrunc.
    assert (Hle : Qle_bool 0 (inject_Z n / inject_Z 60) = true).
    { apply Qle_bool_iff. apply Qle_shift_div_l; [reflexivity |].
      rewrite Qmult_0_l. change 0%Q with (inject_Z 0). now rewrite <- Zle_Qle. }
    rewrite Hle. symmetry. apply Zdiv_Qdiv. }
  rewrite Ht. unfold Qminus.
  rewrite <- inject_Z_mult, <- inject_Z_opp, <- inject_Z_plus.
  apply inject_Z_injective. rewrite (Z.mod_eq n 60) by lia. lia.
Qed.

(** The display of a whole, non-negative number of seconds. *)
Lemma formatTime_of_Z (n : Z) :
  0 <= n < 2 ^ 52 ->
  formatTime (of_Z n) =
    Some (padStart 2 "0" (pretty (n / 60)) +:+ ":" +:+ padStart 2 "0" (pretty (n mod 60))).
Proof.
  intros Hn. unfold formatTime.
  rewrite floor_div_60, rem_60 by lia.
  assert (0 <= n / 60 < 2 ^ 52).
  { split; [apply Z.div_pos; lia |]. apply Z.div_lt_upper_bound; lia. }
  pose proof (Z.mod_pos_bound n 60 ltac:(lia)).
  rewrite !Number_toString_of_Z by lia. reflexivity.
Qed.

End Display.

(** X9: up to 99 minutes and 59 seconds the display of a whole number of
    seconds is five characters: the two digits of the minutes, a colon, and
    the two digits of the seconds, which are below 60. *)
Theorem formatTime_mm_ss (n : Z) :
  0 <= n < 6000 ->
  formatTime (of_Z n) = Some (two_digits (n / 60) +:+ ":" +:+ two_digits (n mod 60)) /\
  0 <= n / 60 < 100 /\ 0 <= n mod 60 < 60.
Proof.
  intros Hn.
  assert (Hm : 0 <= n / 60 < 100).
  { split; [apply Z.div_pos; lia | apply Z.div_lt_upper_bound; lia]. }
  pose proof (Z.mod_pos_bound n 60 ltac:(lia)) as Hs.
  split; [| split; assumption].
  rewrite formatTime_of_Z by lia.
  now rewrite !padStart_two_digits by lia.
Qed.

Lemma formatTime_mm_ss_witness :
  formatTime (of_Z 1500) = Some "25:00" /\ formatTime (of_Z 61) = Some "01:01".
Proof.
  split.
  - exact (proj1 (formatTime_mm_ss 1500 ltac:(lia))).
  - exact (proj1 (formatTime_mm_ss 61 ltac:(lia))).
Defined.

(** X10: the display tells the time: two whole, non-negative numbers of
    seconds below 2^52 (where the rounding of the quotient by 60 does not
    reach the next integer, and the minutes print with all their digits)
    that are displayed alike are the same number. *)
Theorem formatTime_injective (a b : Z) :
  0 <= a < 2 ^ 52 ->
  0 <= b < 2 ^ 52 ->
  formatTime (of_Z a) = formatTime (of_Z b) ->
  a = b.
Proof.
  intros Ha Hb. rewrite !formatTime_of_Z by assumption.
  intros [= H].
  pose proof (Z.mod_pos_bound a 60 ltac:(lia)) as Hsa.
  pose proof (Z.mod_pos_bound b 60 ltac:(lia)) as Hsb.
  rewrite <- !append_assoc in H.
  apply append_cancel in H as [Hm Hs];
    [| rewrite !padStart_two_digits by lia; reflexivity].
  apply append_cancel in Hm as [Hm _]; [| reflexivity].
  apply (f_equal decimal_value) in Hm, Hs.
  rewrite !decimal_padStart in Hm, Hs by (lia || (apply Z.div_pos; lia)).
  rewrite (Z.div_mod a 60), (Z.div_mod b 60) by lia. lia.
Qed.

Lemma formatTime_injective_witness :
  formatTime (of_Z 90) = formatTime (of_Z (60 + 30)) /\ 90 = 60 + 30.
Proof.
  split; [vm_compute; reflexivity |].
  apply (formatTime_injective 90 (60 + 30)); [lia | lia |].
  vm_compute; reflexivity.
Defined.

(** ** The states of a session *)

Section Sessions.

Lemma trim_end_cons (c : ascii) (r : string) :
  trim_end (String c r) =
    match trim_end r with
    | EmptyString => if is_space c then EmptyString else String c EmptyString
    | r' => String c r'
    end.
Proof. reflexivity. Qed.

Lemma trim_end_idempotent (u : string) : trim_end (trim_end u) = trim_end u.
Proof.
  induction u as [| c r IH]; [reflexivity |].
  rewrite (trim_end_cons c r). destruct (trim_end r) as [| d r'] eqn:E.
  - destruct (is_space c) eqn:Ec; [reflexivity |].
    rewrite trim_end_cons. cbn [trim_end]. now rewrite Ec.
  - rewrite trim_end_cons, IH. reflexivity.
Qed.

Lemma trim_start_no_leading_space (s : string) : no_leading_space (trim_start s).
Proof.
  induction s as [| c r IH]; [exact I |].
  cbn [trim_start]. destruct (is_space c) eqn:E; [exact IH | exact E].
Qed.

Lemma trim_end_no_leading_space (u : string) :
  no_leading_space u -> no_leading_space (trim_end u).
Proof.
  destruct u as [| c r]; [trivial |].
  rewrite trim_end_cons. cbn [no_leading_space]. intros Hc.
  destruct (trim_end r); [now rewrite Hc | exact Hc].
Qed.

Lemma trim_start_id (u : string) : no_leading_space u -> trim_start u = u.
Proof.
  destruct u as [| c r]; [reflexivity |].
  cbn [no_leading_space trim_start]. now intros ->.
Qed.

(** A trimmed text is not changed by trimming. *)
Lemma trim_idempotent (s : string) : trim (trim s) = trim s.
Proof.
  unfold trim.
  rewrite (trim_start_id (trim_end (trim_start s)))
    by apply trim_end_no_leading_space, trim_start_no_leading_space.
  apply trim_end_idempotent.
Qed.

Lemma mkTask_set_pomodoros (id name : string) (done : bool) (n : Z) (v : prim) :
  <["pomodoros" := v]> (mkTask id name done n)
  = <["id" := PStr id]> (<["name" := PStr name]> (<["done" := PBool done]>
      (<["pomodoros" := v]> ∅))).
Proof.
  unfold mkTask. apply map_eq. intros k. rewrite !lookup_insert.
  repeat case_decide; congruence.
Qed.

Lemma mkTask_set_name (id name x : string) (done : bool) (n : Z) :
  <["name" := PStr x]> (mkTask id name done n) = mkTask id x done n.
Proof.
  unfold mkTask. apply map_eq. intros k. rewrite !lookup_insert.
  repeat case_decide; congruence.
Qed.

(** The tick gives a task of the interface one more pomodoro. *)
Lemma credit_mkTask (id name : string) (done : bool) (n : Z) :
  <["pomodoros" := plus_one (js_or (get (mkTask id name done n) "pomodoros")
                                   (PNum (of_Z 0)))]> (mkTask id name done n)
  = mkTask id name done (n + 1).
Proof.
  rewrite (proj2 (proj2 (proj2 (get_mkTask id name done n)))).
  rewrite mkTask_set_pomodoros. unfold mkTask. do 4 f_equal.
  unfold js_or. rewrite truthy_of_Z.
  destruct (Z.eqb_spec n 0) as [-> | Hn]; cbn [negb plus_one Number];
    now rewrite add_of_Z.
Qed.

Lemma is_task_id (t : obj) :
  is_task t -> exists id, get t "id" = PStr id.
Proof.
  intros (id & name & done & n & -> & _). exists id. apply get_mkTask.
Qed.

Lemma is_task_credit (sel : prim) (t : obj) :
  is_task t -> is_task (credit sel t) /\ get (credit sel t) "id" = get t "id".
Proof.
  intros (id & name & done & n & -> & Hname & Htrim & Hn).
  unfold credit. destruct (strict_eq _ _).
  - rewrite credit_mkTask. split.
    + exists id, name, done, (n + 1). repeat split; try assumption. lia.
    + now rewrite !(proj1 (get_mkTask _ _ _ _)).
  - split; [| reflexivity]. exists id, name, done, n. now repeat split.
Qed.

Lemma is_task_toggle (t : obj) :
  is_task t ->
  is_task (<["done" := PBool (negb (truthy (get t "done")))]> t).
Proof.
  intros (id & name & done & n & -> & Hname & Htrim & Hn).
  rewrite mkTask_set_done. exists id, name, (negb (truthy (get (mkTask id name done n) "done"))), n.
  now repeat split.
Qed.

Lemma is_task_rename (v : string) (t : obj) :
  trim v <> "" -> is_task t -> is_task (<["name" := PStr (trim v)]> t).
Proof.
  intros Hv (id & name & done & n & -> & Hname & Htrim & Hn).
  rewrite mkTask_set_name. exists id, (trim v), done, n.
  repeat split; try assumption. apply trim_idempotent.
Qed.

Lemma is_task_storable (t : obj) : is_task t -> storable_task t.
Proof. intros (id & name & done & n & -> & _). apply storable_mkTask. Qed.

Lemma Forall_map_tasks (P : obj -> Prop) (f : obj -> obj) (l : list obj) :
  (forall t, P t -> P (f t)) -> Forall P l -> Forall P (map f l).
Proof. intros Hf. induction 1; constructor; auto. Qed.

Lemma ids_filter (id : prim) (l : list obj) :
  ids (List.filter (fun t => negb (strict_eq (get t "id") id)) l)
  = List.filter (fun i => negb (strict_eq i id)) (ids l).
Proof.
  induction l as [| t l IH]; [reflexivity |].
  cbn [List.filter ids map]. fold (ids l).
  destruct (negb (strict_eq (get t "id") id)); cbn [ids map]; fold (ids l);
    now rewrite <- IH.
Qed.

Lemma ids_map_in (f : obj -> obj) (l : list obj) :
  (forall t, In t l -> get (f t) "id" = get t "id") -> ids (map f l) = ids l.
Proof.
  intros H. unfold ids. rewrite List.map_map.
  apply List.map_ext_in. exact H.
Qed.

(** The ids that the tick sees are those before it. *)
Lemma ids_tick (s : state) :
  ids (tasks (tick s)) = ids (tasks s) /\ selectedTaskId (tick s) = selectedTaskId s.
Proof.
  split; [| apply tick_selected].
  unfold tick, tick_callback.
  destruct (isRunning s); [| reflexivity].
  destruct (gtb _ _); [reflexivity |].
  destruct (isWorkSession s && truthy (selectedTaskId s)); [| reflexivity].
  cbn [tasks setRemaining setIsWorkSession setTasks].
  apply ids_map. intros t. unfold credit.
  destruct (strict_eq _ _); [| reflexivity].
  apply get_insert_ne. discriminate.
Qed.

Lemma bounds_full (s : state) :
  whole_minutes 1 180 (workDuration s) ->
  whole_minutes 1 60 (breakDuration s) ->
  remaining s = totalForProgress s ->
  timer_in_bounds s.
Proof.
  intros Hw Hb Hr. split; [exact Hw |]. split; [exact Hb |].
  assert (exists T, totalForProgress s = of_Z T /\ 0 <= T) as (T & HT & Hpos).
  { unfold totalForProgress.
    destruct (isWorkSession s);
      [destruct Hw as (k & Hk & ->) | destruct Hb as (k & Hk & ->)];
      eexists; (split; [reflexivity | lia]). }
  exists T, T. rewrite Hr, HT. repeat split; lia.
Qed.

Lemma bounds_frame (s s' : state) :
  workDuration s' = workDuration s ->
  breakDuration s' = breakDuration s ->
  remaining s' = remaining s ->
  isWorkSession s' = isWorkSession s ->
  timer_in_bounds s -> timer_in_bounds s'.
Proof.
  unfold timer_in_bounds, totalForProgress. now intros -> -> -> ->.
Qed.

Lemma bounds_tick (s : state) : timer_in_bounds s -> timer_in_bounds (tick s).
Proof.
  intros Hs. pose proof Hs as (Hw & Hb & (r & T & Hr & HT & Hle)).
  unfold tick. destruct (isRunning s); [| exact Hs].
  unfold tick_callback. rewrite Hr, gtb_of_Z.
  destruct (Z.ltb_spec 0 r).
  - split; [exact Hw |]. split; [exact Hb |].
    exists (r - 1), T. cbn [remaining setRemaining]. rewrite sub_of_Z.
    repeat split; try lia. exact HT.
  - apply bounds_full.
    + now destruct (isWorkSession s && truthy (selectedTaskId s)).
    + now destruct (isWorkSession s && truthy (selectedTaskId s)).
    + unfold totalForProgress.
      now destruct (isWorkSession s && truthy (selectedTaskId s)), (isWorkSession s).
Qed.

Lemma bounds_updateDurations (w b : num) (s : state) :
  is_nan w = false -> is_nan b = false -> timer_in_bounds (updateDurations w b s).
Proof.
  intros Hw Hb. unfold updateDurations.
  rewrite !clamp_seconds by (lia || assumption).
  apply bounds_full.
  - exists (clamped 1 180 w). split; [apply clamped_range; lia | reflexivity].
  - exists (clamped 1 60 b). split; [apply clamped_range; lia | reflexivity].
  - unfold totalForProgress.
    cbn [remaining isWorkSession workDuration breakDuration
         setRemaining setBreakDuration setWorkDuration].
    now destruct (isWorkSession s).
Qed.

Lemma bounds_initial : timer_in_bounds initial_state.
Proof.
  apply bounds_full; [exists 25 | exists 5 | reflexivity];
    (split; [lia | reflexivity]).
Qed.

End Sessions.

Section SessionInvariant.

Lemma well_formed_timer (s s' : state) :
  tasks s' = tasks s ->
  selectedTaskId s' = selectedTaskId s ->
  timer_in_bounds s' ->
  well_formed s -> well_formed s'.
Proof.
  intros Ht Hs Hb (_ & Hk & Hsel).
  unfold well_formed, selection_ok. rewrite Ht, Hs. auto.
Qed.

Lemma well_formed_tasks (s s' : state) :
  workDuration s' = workDuration s ->
  breakDuration s' = breakDuration s ->
  remaining s' = remaining s ->
  isWorkSession s' = isWorkSession s ->
  Forall is_task (tasks s') ->
  selection_ok s' ->
  well_formed s -> well_formed s'.
Proof.
  intros Hw Hb Hr Hk Ht Hsel (Hbounds & _).
  split; [now apply (bounds_frame s) |]. auto.
Qed.

Lemma is_task_tick (s : state) :
  Forall is_task (tasks s) -> Forall is_task (tasks (tick s)).
Proof.
  intros H. unfold tick, tick_callback.
  destruct (isRunning s); [| exact H].
  destruct (gtb _ _); [exact H |].
  destruct (isWorkSession s && truthy (selectedTaskId s)); [| exact H].
  cbn [tasks setRemaining setIsWorkSession setTasks].
  apply Forall_map_tasks; [| exact H]. intros t Ht. now apply is_task_credit.
Qed.

Lemma addTask_frame (e : env) (s : state) :
  workDuration (addTask e s) = workDuration s /\
  breakDuration (addTask e s) = breakDuration s /\
  remaining (addTask e s) = remaining s /\
  isWorkSession (addTask e s) = isWorkSession s /\
  isRunning (addTask e s) = isRunning s.
Proof.
  unfold addTask. destruct (is_empty _); [now repeat split |].
  now destruct (negb (truthy (selectedTaskId s))).
Qed.

Lemma deleteTask_frame (id : prim) (s : state) :
  workDuration (deleteTask id s) = workDuration s /\
  breakDuration (deleteTask id s) = breakDuration s /\
  remaining (deleteTask id s) = remaining s /\
  isWorkSession (deleteTask id s) = isWorkSession s /\
  isRunning (deleteTask id s) = isRunning s.
Proof.
  unfold deleteTask. now destruct (strict_eq (selectedTaskId s) id).
Qed.

(** The ids of the list after a step of the interface: those before,
    less the deleted one, or with the new one in front. *)
Lemma ids_run (ev : event) (s : state) :
  by_interface s ev ->
  ids (tasks (run ev s)) = ids (tasks s) \/
  (exists id, ev = Delete id /\
     ids (tasks (run ev s)) = List.filter (fun i => negb (strict_eq i id)) (ids (tasks s))) \/
  (exists e, ev = AddTask e /\ trim (taskInput s) <> "" /\
     ids (tasks (run ev s)) = PStr (new_id e) :: ids (tasks s)).
Proof.
  intros Hev. destruct ev; cbn [run by_interface] in *; try (now left).
  - left. apply ids_tick.
  - destruct (is_empty (trim (taskInput s))) eqn:E.
    + left. unfold addTask. now rewrite E.
    + right. right. exists e. apply is_empty_false in E.
      split; [reflexivity |]. split; [exact E |].
      rewrite addTask_tasks by assumption. cbn [ids map].
      now rewrite (proj1 (get_mkTask _ _ _ _)).
  - left. unfold toggleTaskDone. cbn [tasks setTasks]. apply ids_map.
    intros t. destruct (strict_eq _ _); [| reflexivity].
    apply get_insert_ne. discriminate.
  - right. left. exists id. split; [reflexivity |].
    now rewrite deleteTask_tasks, ids_filter.
  - left. unfold editTaskName. cbn [tasks setTasks]. apply ids_map.
    intros t. destruct (strict_eq _ _); [| reflexivity].
    apply get_insert_ne. discriminate.
Qed.

(** Every step of the interface keeps a state well formed, whatever id
    the platform makes. *)
Lemma well_formed_run (ev : event) (s : state) :
  by_interface s ev -> well_formed s -> well_formed (run ev s).
Proof.
  intros Hev Hwf. pose proof Hwf as (Hb & Ht & Hsel).
  pose proof Hb as (Hwd & Hbd & _).
  destruct ev; cbn [run by_interface] in *.
  - contradiction.
  - destruct (ids_tick s) as [Hi Hs'].
    split; [now apply bounds_tick |]. split; [now apply is_task_tick |].
    unfold selection_ok. now rewrite Hs', Hi.
  - now apply (well_formed_timer s).
  - apply (well_formed_timer s); try reflexivity; [| exact Hwf].
    apply bounds_full; try assumption.
    unfold totalForProgress, resetTimer.
    cbn [remaining isWorkSession workDuration breakDuration setRemaining setIsRunning].
    reflexivity.
  - apply (well_formed_timer s); try reflexivity; [| exact Hwf].
    apply bounds_full; try assumption.
    unfold totalForProgress, switchSession.
    cbn [remaining isWorkSession workDuration breakDuration setRemaining
         setIsRunning setIsWorkSession].
    reflexivity.
  - apply (well_formed_timer s); try reflexivity; [| exact Hwf].
    now apply bounds_full.
  - apply (well_formed_timer s); try reflexivity; [| exact Hwf].
    now apply bounds_full.
  - destruct Hev as [Hw' Hb'].
    apply (well_formed_timer s); try reflexivity; [| exact Hwf].
    now apply bounds_updateDurations.
  - destruct (addTask_frame e s) as (F1 & F2 & F3 & F4 & _).
    destruct (is_empty (trim (taskInput s))) eqn:E.
    { unfold addTask. now rewrite E. }
    apply is_empty_false in E.
    apply (well_formed_tasks s); try assumption.
    + rewrite addTask_tasks by assumption. constructor; [| exact Ht].
      exists (new_id e), (trim (taskInput s)), false, 0.
      repeat split; try assumption; [apply trim_idempotent | lia].
    + unfold selection_ok. rewrite addTask_selected, addTask_tasks by assumption.
      cbn [ids map]. fold (ids (tasks s)).
      rewrite (proj1 (get_mkTask _ _ _ _)).
      destruct (truthy (selectedTaskId s)); [| right; now left].
      destruct Hsel as [Hnull | Hin]; [now left | right; now right].
  - apply (well_formed_tasks s); try reflexivity; [| | exact Hwf].
    + unfold toggleTaskDone. cbn [tasks setTasks].
      apply Forall_map_tasks; [| exact Ht].
      intros t Hk. destruct (strict_eq _ _); [now apply is_task_toggle | exact Hk].
    + unfold selection_ok, toggleTaskDone. cbn [tasks setTasks selectedTaskId].
      rewrite ids_map; [exact Hsel |].
      intros t. destruct (strict_eq _ _); [| reflexivity].
      apply get_insert_ne. discriminate.
  - destruct (deleteTask_frame id s) as (F1 & F2 & F3 & F4 & _).
    apply (well_formed_tasks s); try assumption.
    + rewrite deleteTask_tasks. apply List.Forall_forall.
      intros t Hk. apply List.filter_In in Hk.
      now apply (proj1 (List.Forall_forall _ _) Ht).
    + unfold selection_ok. rewrite deleteTask_selected, deleteTask_tasks, ids_filter.
      destruct (strict_eq (selectedTaskId s) id) eqn:E; [now left |].
      destruct Hsel as [Hnull | Hin]; [now left | right].
      apply List.filter_In. split; [exact Hin | now rewrite E].
  - destruct Hev as (v & -> & Hv).
    apply (well_formed_tasks s); try reflexivity; [| | exact Hwf].
    + unfold editTaskName. cbn [tasks setTasks].
      apply Forall_map_tasks; [| exact Ht].
      intros t Hk. destruct (strict_eq _ _); [now apply is_task_rename | exact Hk].
    + unfold selection_ok, editTaskName. cbn [tasks setTasks selectedTaskId].
      rewrite ids_map; [exact Hsel |].
      intros t. destruct (strict_eq _ _); [| reflexivity].
      apply get_insert_ne. discriminate.
  - apply (well_formed_tasks s); try reflexivity; try assumption.
    right. exact Hev.
  - now apply (well_formed_tasks s).
Qed.

(** A step of the interface keeps the ids distinct and not empty, when
    the id that the platform makes for [addTask] is new. *)
Lemma distinct_ids_run (ev : event) (s : state) :
  by_interface s ev ->
  (forall e, ev = AddTask e -> new_to s e) ->
  distinct_ids s -> distinct_ids (run ev s).
Proof.
  intros Hev Hnew [Hn He]. unfold distinct_ids.
  destruct (ids_run ev s Hev) as [-> | [(id & _ & ->) | (e & -> & _ & ->)]].
  - now split.
  - split; [now apply List.NoDup_filter |].
    intros Hin. apply List.filter_In in Hin. tauto.
  - destruct (Hnew e eq_refl) as [Hid Hfresh].
    split; [now apply List.NoDup_cons |].
    intros [Heq | Hin]; [| contradiction]. now injection Heq.
Qed.

Lemma well_formed_persistable (s : state) : well_formed s -> persistable s.
Proof.
  intros ((Hw & Hb & (r & T & Hr & _)) & Ht & _).
  split; [| split; [| split]].
  - destruct Hw as (k & Hk & ->). apply is_pos_accepted. exists (60 * k). split; [lia | reflexivity].
  - destruct Hb as (k & Hk & ->). apply is_pos_accepted. exists (60 * k). split; [lia | reflexivity].
  - now rewrite Hr.
  - apply List.Forall_forall. intros t Hin.
    apply is_task_storable. now apply (proj1 (List.Forall_forall _ _) Ht).
Qed.

Lemma load_missing (ls : storage) :
  missing ls LS_KEYS.tasks -> missing ls LS_KEYS.settings ->
  missing ls LS_KEYS.state ->
  load ls initial_state = setRemaining DEFAULT_BREAK initial_state.
Proof.
  intros Hk Hs Ht.
  now rewrite (load_well_parsed ls initial_state (JArr []) (JObj ∅) (JObj ∅)
                 DEFAULT_WORK DEFAULT_BREAK
                 (parsed_missing _ _ _ Hk) (parsed_missing _ _ _ Hs)
                 (parsed_missing _ _ _ Ht) eq_refl eq_refl eq_refl eq_refl).
Qed.

Lemma well_formed_initial : well_formed initial_state.
Proof.
  split; [apply bounds_initial |]. split; [constructor | now left].
Qed.

(** Every state of a session is well formed, whatever the platform. *)
Lemma session_well_formed (platform : state -> env -> Prop) (s : state) :
  session_over platform s -> well_formed s.
Proof.
  induction 1 as [| ls Hk Hs Ht | s0 ls0 _ IH | s ev _ IH Hev _].
  - apply well_formed_initial.
  - rewrite load_missing by assumption.
    apply (well_formed_timer initial_state); try reflexivity;
      [| apply well_formed_initial].
    split; [exists 25; split; [lia | reflexivity] |].
    split; [exists 5; split; [lia | reflexivity] |].
    exists 300, 1500. repeat split; lia.
  - rewrite load_persist by now apply well_formed_persistable.
    destruct IH as (Hb & Ht & _).
    split; [exact Hb |]. split; [exact Ht | now left].
  - now apply well_formed_run.
Qed.

Lemma in_session_well_formed (s : state) : in_session s -> well_formed s.
Proof. apply session_well_formed. Qed.

(** Over a platform whose ids are new, the ids of every state of a
    session are distinct and not empty. *)
Lemma session_distinct_ids (s : state) :
  session_over new_to s -> distinct_ids s.
Proof.
  induction 1 as [| ls Hk Hs Ht | s0 ls0 H0 IH | s ev _ IH Hev Hnew].
  - split; [constructor | intros []].
  - rewrite load_missing by assumption. split; [constructor | intros []].
  - rewrite load_persist
      by now apply well_formed_persistable, (session_well_formed new_to).
    exact IH.
  - now apply distinct_ids_run.
Qed.

(** A session over a platform of which more is known is a session. *)
Lemma session_any_platform (platform : state -> env -> Prop) (s : state) :
  session_over platform s -> in_session s.
Proof.
  induction 1 as [| ls Hk Hs Ht | s0 ls0 _ IH | s ev _ IH Hev _].
  - apply in_start.
  - now apply in_fresh.
  - now apply in_again.
  - apply in_step; [exact IH | exact Hev | intros; exact I].
Qed.

Lemma ticking_new_ids (n : nat) : session_over new_to (ticking n).
Proof.
  unfold ticking. induction n as [| n IH];
    [| apply (in_step _ _ Tick); [exact IH | exact I | discriminate]].
  apply (in_step _ _ StartPause); [| exact I | discriminate].
  apply (in_step _ _ (UpdateDurations _ _)); [| split; reflexivity | discriminate].
  apply (in_step _ _ (AddTask _)).
  - apply (in_step _ _ (Typed _)); [| exact I | discriminate].
    apply in_fresh; left; reflexivity.
  - exact I.
  - intros e [= <-]. split; [discriminate | intros []].
Qed.

Lemma ticking_in_session (n : nat) : in_session (ticking n).
Proof. apply (session_any_platform new_to), ticking_new_ids. Qed.

(** The place of a task of a given id in the list. *)
Lemma selected_task (l : list obj) (sel : prim) :
  Forall is_task l -> In sel (ids l) ->
  exists l1 id name done n l2,
    l = l1 ++ mkTask id name done n :: l2 /\
    sel = PStr id /\
    (List.NoDup (ids l) -> absent sel (l1 ++ l2)).
Proof.
  intros Ht Hin. unfold ids in Hin. apply List.in_map_iff in Hin as (t & Hid & Hin).
  apply List.in_split in Hin as (l1 & l2 & ->).
  pose proof (proj1 (List.Forall_forall _ _) Ht) as Hall.
  destruct (Hall t ltac:(apply List.in_or_app; right; now left))
    as (id & name & done & n & -> & _).
  rewrite (proj1 (get_mkTask _ _ _ _)) in Hid. subst sel.
  exists l1, id, name, done, n, l2. do 2 (split; [reflexivity |]).
  intros Hn. unfold ids in Hn. rewrite List.map_app in Hn. cbn [map] in Hn.
  apply List.NoDup_remove_2 in Hn. rewrite (proj1 (get_mkTask _ _ _ _)) in Hn.
  intros u Hu.
  destruct (Hall u) as (id' & name' & done' & n' & -> & _).
  { apply List.in_app_or in Hu. apply List.in_or_app. destruct Hu; [now left | right; now right]. }
  rewrite (proj1 (get_mkTask _ _ _ _)). cbn [strict_eq].
  apply String.eqb_neq. intros ->. apply Hn.
  rewrite <- List.map_app. apply List.in_map_iff.
  eexists. split; [| exact Hu]. apply get_mkTask.
Qed.

End SessionInvariant.

(** X11: in every state of a session, whatever ids the platform makes,
    each task is an object of the four properties that [addTask] gives it,
    with an id that is a string, a name that is trimmed and not empty, a
    boolean [done] and a count of pomodoros that is a non-negative integer.
    In a session in which every id that the platform makes for [addTask]
    is new, that is, not empty and not the id of a task of the list, the
    ids of the tasks are not empty and no two tasks have the same id. *)
Theorem session_tasks_of_data_model (s : state) :
  (in_session s -> Forall is_task (tasks s)) /\
  (session_over new_to s -> distinct_ids s).
Proof.
  split.
  - intros H. now destruct (in_session_well_formed s H) as (_ & Ht & _).
  - apply session_distinct_ids.
Qed.

Lemma session_tasks_of_data_model_witness :
  Forall is_task (tasks (ticking 61)) /\ distinct_ids (ticking 61).
Proof.
  destruct (session_tasks_of_data_model (ticking 61)) as [Ht Hd].
  split; [apply Ht, ticking_in_session | apply Hd, ticking_new_ids].
Defined.

(** X12: in every state of a session the selection does not dangle: it is
    [null], or it is the id of a task of the list; and it is the id of no
    other task when no two tasks of the list have the same id. *)
Theorem session_selection_is_a_task (s : state) :
  in_session s ->
  selectedTaskId s = PNull \/
  exists l1 id name done n l2,
    tasks s = l1 ++ mkTask id name done n :: l2 /\
    selectedTaskId s = PStr id /\
    (List.NoDup (ids (tasks s)) -> absent (selectedTaskId s) (l1 ++ l2)).
Proof.
  intros H. destruct (in_session_well_formed s H) as (_ & Ht & [Hnull | Hin]);
    [now left | right].
  destruct (selected_task _ _ Ht Hin) as (l1 & id & name & done & n & l2 & Hl & Hs & Ha).
  now exists l1, id, name, done, n, l2.
Qed.

Lemma session_selection_is_a_task_witness :
  selectedTaskId (ticking 3) = PNull \/
  exists l1 id name done n l2,
    tasks (ticking 3) = l1 ++ mkTask id name done n :: l2 /\
    selectedTaskId (ticking 3) = PStr id /\
    (List.NoDup (ids (tasks (ticking 3))) ->
     absent (selectedTaskId (ticking 3)) (l1 ++ l2)).
Proof. apply session_selection_is_a_task, ticking_in_session. Defined.

(** X13: in every state of a session the work duration is a whole number
    of minutes from 1 to 180, the break duration one from 1 to 60, and
    remaining is a whole number of seconds from 0 to the duration of the
    session kind that is active. *)
Theorem session_timer_in_bounds (s : state) :
  in_session s -> timer_in_bounds s.
Proof. intros H. apply (in_session_well_formed s H). Qed.

Lemma session_timer_in_bounds_witness : timer_in_bounds (ticking 61).
Proof. apply session_timer_in_bounds, ticking_in_session. Defined.

(** X14: when a work session of a session state completes (the timer
    runs, remaining > 0 is false) and a task is selected (the selection is
    truthy), the tick credits the selected task: a task of the selected id
    is in the list, and after the tick it stands at the same place with
    its count one higher.  When no two tasks of the list have the same id,
    the tick credits no other: the list after is the list before with
    that one count one higher. *)
Theorem session_credits_selected_task (s : state) :
  in_session s ->
  isRunning s = true ->
  isWorkSession s = true ->
  gtb (remaining s) (of_Z 0) = false ->
  truthy (selectedTaskId s) = true ->
  exists l1 id name done n l2,
    tasks s = l1 ++ mkTask id name done n :: l2 /\
    selectedTaskId s = PStr id /\
    (exists l1' l2',
       tasks (tick s) = l1' ++ mkTask id name done (n + 1) :: l2' /\
       length l1' = length l1 /\ length l2' = length l2) /\
    (List.NoDup (ids (tasks s)) ->
     tasks (tick s) = l1 ++ mkTask id name done (n + 1) :: l2).
Proof.
  intros H Hrun Hwork Hend Hsel.
  destruct (in_session_well_formed s H) as (_ & Ht & [Hnull | Hin]);
    [rewrite Hnull in Hsel; discriminate Hsel |].
  destruct (selected_task _ _ Ht Hin)
    as (l1 & id & name & done & n & l2 & Hl & Hs & Ha).
  exists l1, id, name, done, n, l2. split; [exact Hl |]. split; [exact Hs |].
  assert (E : tasks (tick s) =
              map (credit (selectedTaskId s)) l1
                ++ mkTask id name done (n + 1) :: map (credit (selectedTaskId s)) l2).
  { rewrite tick_running by assumption.
    destruct (tick_callback_complete s Hend) as (_ & _ & _ & _ & _ & ->).
    rewrite Hwork, Hsel. cbn [andb]. rewrite Hl, List.map_app. cbn [map].
    do 2 f_equal. unfold credit. rewrite Hs, (proj1 (get_mkTask _ _ _ _)).
    cbn [strict_eq]. rewrite String.eqb_refl. apply credit_mkTask. }
  split.
  - eexists _, _. split; [exact E |]. now rewrite !List.length_map.
  - intros Hn. specialize (Ha Hn). rewrite E.
    rewrite !map_credit_others;
      [reflexivity
      | intros u Hu; apply Ha, List.in_or_app; now right
      | intros u Hu; apply Ha, List.in_or_app; now left].
Qed.

Lemma session_credits_selected_task_witness :
  exists l1 id name done n l2,
    tasks (ticking 60) = l1 ++ mkTask id name done n :: l2 /\
    selectedTaskId (ticking 60) = PStr id /\
    (exists l1' l2',
       tasks (tick (ticking 60)) = l1' ++ mkTask id name done (n + 1) :: l2' /\
       length l1' = length l1 /\ length l2' = length l2) /\
    (List.NoDup (ids (tasks (ticking 60))) ->
     tasks (tick (ticking 60)) = l1 ++ mkTask id name done (n + 1) :: l2).
Proof.
  apply session_credits_selected_task;
    [apply ticking_in_session
    | vm_compute; reflexivity | vm_compute; reflexivity | vm_compute; reflexivity
    | vm_compute; reflexivity].
Defined.

(** X15: a state of a session comes back from the storage: the load of
    what the persist effects wrote of it gives its durations, session kind,
    remaining and tasks, with the timer stopped, the task input empty and
    nothing selected. *)
Theorem session_reloads (s : state) (ls : storage) :
  in_session s ->
  load (persist s ls) initial_state = reloaded s.
Proof.
  intros H. rewrite load_persist; [reflexivity |].
  apply well_formed_persistable, in_session_well_formed, H.
Qed.

Lemma session_reloads_witness :
  load (persist (ticking 61) ∅) initial_state = reloaded (ticking 61).
Proof. apply (session_reloads (ticking 61) ∅), ticking_in_session. Defined.

(** X21: mounting the component over a storage that holds what the
    persist effects wrote of a state of a session gives that state
    reloaded, and leaves the storage as it is. *)
Theorem mount_over_own_storage (s : state) (ls : storage) :
  in_session s ->
  mount (persist s ls) = (reloaded s, persist s ls).
Proof.
  intros H. unfold mount.
  rewrite load_persist
    by apply well_formed_persistable, in_session_well_formed, H.
  f_equal.
  unfold persist, persist_tasks, persist_state, persist_settings.
  cbn [tasks isWorkSession remaining workDuration breakDuration].
  apply map_eq. intros k. rewrite !lookup_insert.
  repeat case_decide; reflexivity.
Qed.

Lemma mount_over_own_storage_witness :
  mount (persist (ticking 61) ∅) = (reloaded (ticking 61), persist (ticking 61) ∅).
Proof. apply mount_over_own_storage, ticking_in_session. Defined.

(** ** What the timer panel shows *)

Section Panel.

Lemma bounds_total (s : state) :
  timer_in_bounds s ->
  exists r T : Z,
    remaining s = of_Z r /\ totalForProgress s = of_Z T /\
    0 <= r <= T /\ 60 <= T <= 10800.
Proof.
  intros (Hw & Hb & (r & T & Hr & HT & Hle)).
  exists r, T. do 3 (split; [assumption |]).
  unfold totalForProgress in HT.
  destruct (isWorkSession s);
    [destruct Hw as (k & Hk & E) | destruct Hb as (k & Hk & E)];
    rewrite E in HT; apply of_Z_inj in HT; lia.
Qed.

Lemma canonical_eq (p : Q) (z : Z) : Qred p = p -> p == inject_Z z -> p = inject_Z z.
Proof. intros Hc H. rewrite <- Hc. now apply Qred_eq_inject_Z. Qed.

Local Open Scope Q_scope.

(** The three roundings of [(1 - r / T) * 100]: the quotient, the
    difference and the product each stay within their bounds, and the
    errors add up to less than [2 ^ (-44)]. *)
Lemma progress_rounded (r T : Z) :
  (0 <= r <= T)%Z -> (0 < T)%Z ->
  exists p : Q,
    num_mul (num_sub (of_Z 1) (num_div (of_Z r) (of_Z T))) (of_Z 100) = Fin p /\
    Qred p = p /\ 0 <= p <= 100 /\
    p - inject_Z (100 * (T - r)) / inject_Z T <= 2 ^ (-44) /\
    inject_Z (100 * (T - r)) / inject_Z T - p <= 2 ^ (-44) /\
    (r = T -> p = 0) /\ (r = 0%Z -> p = 100).
Proof.
  intros Hr HT.
  assert (HTq : 0 < inject_Z T).
  { change 0 with (inject_Z 0). rewrite <- Zlt_Qlt. lia. }
  assert (Hrq : 0 <= inject_Z r <= inject_Z T).
  { change 0 with (inject_Z 0). rewrite <- !Zle_Qle. lia. }
  assert (B1 : binary64 1).
  { exists 1%Z, 0%Z. split; [reflexivity |]. split; [lia | reflexivity]. }
  assert (B0 : binary64 0).
  { exists 0%Z, 0%Z. split; [reflexivity |]. split; [lia | reflexivity]. }
  assert (B100 : binary64 100) by (apply (binary64_Z 100); vm_compute; discriminate).
  assert (P53 : 2 ^ (0 - 53) == 1 # 9007199254740992) by reflexivity.
  assert (P47 : 2 ^ (6 - 53) == 1 # 140737488355328) by reflexivity.
  assert (P44 : 2 ^ (-44) == 1 # 17592186044416) by reflexivity.
  set (x1 := inject_Z r / inject_Z T).
  assert (Hx1 : 0 <= x1 <= 1).
  { unfold x1. split.
    - apply Qle_shift_div_l; [exact HTq | lra].
    - apply Qle_shift_div_r; [exact HTq | lra]. }
  destruct (round64_nonneg x1 1 0 ltac:(lia) B1 ltac:(reflexivity) Hx1)
    as (y1 & E1 & C1 & R1 & U1 & L1 & X1).
  rewrite num_div_of_Z by lia. fold x1. rewrite E1.
  unfold num_sub, sub, opp, add, of_Z, rounded.
  set (x2 := Qred (inject_Z 1 + Qred (- y1))).
  assert (Hx2 : x2 == 1 - y1).
  { unfold x2. rewrite !Qred_correct. change (inject_Z 1) with 1. ring. }
  destruct (round64_nonneg x2 1 0 ltac:(lia) B1 ltac:(reflexivity) ltac:(lra))
    as (y2 & E2 & C2 & R2 & U2 & L2 & X2).
  rewrite E2. unfold num_mul, mul, rounded.
  set (x3 := Qred (y2 * inject_Z 100)).
  assert (Hx3 : x3 == 100 * y2).
  { unfold x3. rewrite Qred_correct. change (inject_Z 100) with 100. ring. }
  destruct (round64_nonneg x3 100 6 ltac:(lia) B100 ltac:(reflexivity) ltac:(lra))
    as (y3 & E3 & C3 & R3 & U3 & L3 & X3).
  rewrite E3. exists y3. split; [reflexivity |]. split; [exact C3 |].
  split; [exact R3 |].
  assert (Hshare : inject_Z (100 * (T - r)) / inject_Z T == 100 * (1 - x1)).
  { unfold x1, Z.sub. rewrite inject_Z_mult, inject_Z_plus, inject_Z_opp.
    change (inject_Z 100) with 100. field. lra. }
  rewrite Hshare. split; [lra |]. split; [lra |].
  split.
  - intros ->.
    assert (H1 : x1 == 1) by (unfold x1; field; lra).
    specialize (X1 (binary64_eq _ _ (Qeq_sym _ _ H1) B1)).
    assert (H2 : x2 == 0) by lra.
    specialize (X2 (binary64_eq _ _ (Qeq_sym _ _ H2) B0)).
    assert (H3 : x3 == 0) by lra.
    specialize (X3 (binary64_eq _ _ (Qeq_sym _ _ H3) B0)).
    apply (canonical_eq y3 0 C3). change (inject_Z 0) with 0. lra.
  - intros ->.
    assert (H1 : x1 == 0) by (unfold x1; field; lra).
    specialize (X1 (binary64_eq _ _ (Qeq_sym _ _ H1) B0)).
    assert (H2 : x2 == 1) by lra.
    specialize (X2 (binary64_eq _ _ (Qeq_sym _ _ H2) B1)).
    assert (H3 : x3 == 100) by lra.
    specialize (X3 (binary64_eq _ _ (Qeq_sym _ _ H3) B100)).
    apply (canonical_eq y3 100 C3). change (inject_Z 100) with 100. lra.
Qed.

End Panel.

(** X16: in a state within the bounds of a session the display is a time:
    the minutes of remaining, up to 180, in at least two digits, a colon,
    and the seconds in two digits. *)
Theorem display_in_bounds (s : state) :
  timer_in_bounds s ->
  exists m sec : Z,
    remaining s = of_Z (60 * m + sec) /\
    0 <= m <= 180 /\ 0 <= sec < 60 /\
    formatTime (remaining s)
      = Some (padStart 2 "0" (pretty m) +:+ ":" +:+ two_digits sec).
Proof.
  intros H. destruct (bounds_total s H) as (r & T & Hr & _ & Hle & HT).
  exists (r / 60), (r mod 60).
  pose proof (Z.mod_pos_bound r 60 ltac:(lia)) as Hs.
  split; [rewrite Hr; f_equal; apply Z.div_mod; lia |].
  split; [split; [apply Z.div_pos; lia | apply Z.div_le_upper_bound; lia] |].
  split; [exact Hs |].
  rewrite Hr, formatTime_of_Z by lia.
  now rewrite (padStart_two_digits (r mod 60)) by lia.
Qed.

Lemma display_in_bounds_witness :
  exists m sec : Z,
    remaining (ticking 7) = of_Z (60 * m + sec) /\
    0 <= m <= 180 /\ 0 <= sec < 60 /\
    formatTime (remaining (ticking 7))
      = Some (padStart 2 "0" (pretty m) +:+ ":" +:+ two_digits sec).
Proof.
  apply display_in_bounds.
  split; [exists 1; split; [lia | vm_compute; reflexivity] |].
  split; [exists 5; split; [lia | vm_compute; reflexivity] |].
  exists 53, 60. repeat split; try lia; vm_compute; reflexivity.
Defined.

(** The rounding shows: with 51 seconds left of 120 the progress is not
    57.5 but the Number value below it, and [aria-valuenow] is 57. *)
Example progress_is_rounded :
  let s := setRemaining (of_Z 51) (setWorkDuration (of_Z 120) initial_state) in
  ltb (progress s) (Fin (115 # 2)) = true /\ progress_valuenow s = of_Z 57.
Proof. vm_compute. split; reflexivity. Qed.

(** X17: in a state within the bounds of a session the progress is a
    number from 0 to 100: the share of the session that has passed, in
    percent, up to the rounding of the three operations that compute it,
    which is less than 2^-44; it is 0 at the full duration and 100 at
    remaining = 0.  The width of the bar, which is the progress clamped to
    0..100, is then the progress itself, and [aria-valuenow] is a whole
    number from 0 to 100. *)
Theorem progress_in_bounds (s : state) :
  timer_in_bounds s ->
  exists (p : Q) (r T v : Z),
    remaining s = of_Z r /\ totalForProgress s = of_Z T /\
    progress s = Fin p /\
    (p - inject_Z (100 * (T - r)) / inject_Z T <= 2 ^ (-44))%Q /\
    (inject_Z (100 * (T - r)) / inject_Z T - p <= 2 ^ (-44))%Q /\
    (0 <= p <= inject_Z 100)%Q /\
    progress_width s = progress s /\
    progress_valuenow s = of_Z v /\ (0 <= v <= 100)%Z /\
    (r = T -> progress s = of_Z 0) /\
    (r = 0%Z -> progress s = of_Z 100).
Proof.
  intros H. destruct (bounds_total s H) as (r & T & Hr & HT & Hle & HTb).
  destruct (progress_rounded r T Hle ltac:(lia))
    as (p & Hp' & Hcan & Hrange & Hup & Hlo & Hfull & Hzero).
  assert (Hp : progress s = Fin p).
  { unfold progress. rewrite HT, Hr, gtb_of_Z.
    now rewrite (proj2 (Z.ltb_lt 0 T)) by lia. }
  exists p, r, T, (Qfloor (p + (1 # 2))).
  do 6 (split; [assumption |]).
  split; [| split; [| split; [| split]]].
  - unfold progress_width. rewrite Hp.
    assert (Hmin : Num.min (of_Z 100) (Fin p) = Fin p).
    { unfold Num.min, of_Z, ltb. destruct (Qle_bool (inject_Z 100) p) eqn:E;
        [| reflexivity].
      cbn [negb]. f_equal. symmetry. apply canonical_eq; [exact Hcan |].
      apply Qle_bool_iff in E. apply Qle_antisym; tauto. }
    rewrite Hmin. unfold Num.max, of_Z, ltb.
    destruct (Qle_bool p (inject_Z 0)) eqn:E; [| reflexivity].
    cbn [negb]. f_equal. symmetry. apply canonical_eq; [exact Hcan |].
    apply Qle_bool_iff in E. apply Qle_antisym; tauto.
  - unfold progress_valuenow. now rewrite Hp.
  - split.
    + change 0%Z with (Qfloor (1 # 2)). apply Qfloor_resp_le.
      rewrite <- (Qplus_0_l (1 # 2)) at 1. apply Qplus_le_l. tauto.
    + change 100%Z with (Qfloor (inject_Z 100 + (1 # 2))). apply Qfloor_resp_le.
      apply Qplus_le_l. tauto.
  - intros E. rewrite Hp, (Hfull E). reflexivity.
  - intros E. rewrite Hp, (Hzero E). reflexivity.
Qed.

Lemma progress_in_bounds_witness :
  exists (p : Q) (r T v : Z),
    remaining (ticking 15) = of_Z r /\ totalForProgress (ticking 15) = of_Z T /\
    progress (ticking 15) = Fin p /\
    (p - inject_Z (100 * (T - r)) / inject_Z T <= 2 ^ (-44))%Q /\
    (inject_Z (100 * (T - r)) / inject_Z T - p <= 2 ^ (-44))%Q /\
    (0 <= p <= inject_Z 100)%Q /\
    progress_width (ticking 15) = progress (ticking 15) /\
    progress_valuenow (ticking 15) = of_Z v /\ (0 <= v <= 100)%Z /\
    (r = T -> progress (ticking 15) = of_Z 0) /\
    (r = 0%Z -> progress (ticking 15) = of_Z 100).
Proof.
  apply progress_in_bounds.
  split; [exists 1; split; [lia | vm_compute; reflexivity] |].
  split; [exists 5; split; [lia | vm_compute; reflexivity] |].
  exists 45, 60. repeat split; try lia; vm_compute; reflexivity.
Defined.

(** ** The inputs of the session lengths *)

Section Minutes.

Lemma Math_round_minutes (k : Z) :
  Z.abs k <= 2 ^ 53 ->
  Math_round (num_div (of_Z (60 * k)) (of_Z 60)) = of_Z k.
Proof.
  intros Hk. rewrite num_div_of_Z by lia.
  assert (E : (inject_Z (60 * k) / inject_Z 60 == inject_Z k)%Q).
  { rewrite inject_Z_mult. field. }
  rewrite (round64_exact _ (binary64_eq _ _ (Qeq_sym _ _ E) (binary64_Z k Hk))).
  rewrite (Qred_eq_inject_Z _ _ E).
  unfold Math_round. f_equal.
  unfold Qfloor, Qplus, inject_Z. cbn [Qnum Qden].
  symmetry. apply (Z.div_unique _ _ _ 1); lia.
Qed.

Lemma clamp_whole_minutes (lo hi k : Z) :
  0 < lo -> lo <= k <= hi ->
  mul (Num.max (of_Z lo) (Num.min (of_Z hi) (floor (of_Z k)))) (of_Z 60)
  = of_Z (60 * k).
Proof.
  intros Hlo Hk. rewrite clamp_seconds by (lia || reflexivity).
  now rewrite clamped_in_range.
Qed.

End Minutes.

(** X18: a change of the focus input leaves the break duration as it is,
    and a change of the break input leaves the work duration as it is,
    when the state is within the bounds of a session and the text of the
    input is a number.  The duration of the changed input becomes the
    Number value of the text (what the text writes, rounded to binary64),
    floored and clamped to the range of the input, which the input then
    shows; remaining restarts at the full duration of the session kind
    that is active, whichever input was changed; and the timer keeps
    running or being paused as it was. *)
Theorem minutes_inputs_are_independent (v : string) (s : state) :
  timer_in_bounds s ->
  is_nan (Number (PStr v)) = false ->
  let sw := changeWorkMinutes v s in
  let sb := changeBreakMinutes v s in
  (breakDuration sw = breakDuration s /\
   workDuration sw = of_Z (60 * clamped 1 180 (Number (PStr v))) /\
   workMinutes sw = of_Z (clamped 1 180 (Number (PStr v))) /\
   remaining sw = totalForProgress sw /\
   isRunning sw = isRunning s) /\
  (workDuration sb = workDuration s /\
   breakDuration sb = of_Z (60 * clamped 1 60 (Number (PStr v))) /\
   breakMinutes sb = of_Z (clamped 1 60 (Number (PStr v))) /\
   remaining sb = totalForProgress sb /\
   isRunning sb = isRunning s).
Proof.
  intros ((kw & Hkw & Ew) & (kb & Hkb & Eb) & _) Hv sw sb. subst sw sb.
  unfold changeWorkMinutes, changeBreakMinutes, workMinutes, breakMinutes,
    updateDurations, totalForProgress.
  cbn [workDuration breakDuration remaining isWorkSession isRunning
       setRemaining setBreakDuration setWorkDuration].
  rewrite Ew, Eb, !Math_round_minutes by lia.
  rewrite (clamp_whole_minutes 1 60 kb), (clamp_whole_minutes 1 180 kw) by lia.
  rewrite !clamp_seconds by (lia || assumption).
  pose proof (clamped_range 1 180 (Number (PStr v)) ltac:(lia)).
  pose proof (clamped_range 1 60 (Number (PStr v)) ltac:(lia)).
  rewrite !Math_round_minutes by lia.
  repeat split; now destruct (isWorkSession s).
Qed.

Lemma minutes_inputs_are_independent_witness :
  breakDuration (changeWorkMinutes "45.5" initial_state) = of_Z 300 /\
  workDuration (changeWorkMinutes "45.5" initial_state) = of_Z 2700 /\
  workDuration (changeWorkMinutes "179.99999999999999999" initial_state)
    = of_Z 10800 /\
  workDuration (changeBreakMinutes "" initial_state) = of_Z 1500 /\
  breakDuration (changeBreakMinutes "" initial_state) = of_Z 60.
Proof.
  assert (Hb : timer_in_bounds initial_state).
  { split; [exists 25 | split; [exists 5 | exists 1500, 1500]];
      repeat split; try lia; reflexivity. }
  destruct (minutes_inputs_are_independent "45.5" initial_state Hb)
    as ((H1 & H2 & _) & _); [vm_compute; reflexivity |].
  destruct (minutes_inputs_are_independent "179.99999999999999999" initial_state Hb)
    as ((_ & H3 & _) & _); [vm_compute; reflexivity |].
  destruct (minutes_inputs_are_independent "" initial_state Hb)
    as (_ & (H4 & H5 & _)); [vm_compute; reflexivity |].
  split; [exact H1 |]. split; [rewrite H2; vm_compute; reflexivity |].
  split; [rewrite H3; vm_compute; reflexivity |].
  split; [exact H4 |]. rewrite H5. vm_compute. reflexivity.
Defined.

(** ** The inline edit *)

Section Edit.

Lemma strict_eq_PStr (x : string) (p : prim) :
  strict_eq (PStr x) p = true <-> p = PStr x.
Proof.
  destruct p; cbn [strict_eq]; split; try discriminate.
  - intros H. apply String.eqb_eq in H. now subst.
  - intros [= ->]. apply String.eqb_refl.
Qed.

End Edit.

(** X19: [confirmEdit] on a text keeps the state within the sessions of
    the program, so that no task gets a name that is empty or not trimmed:
    when the text is white space only, or trims to the name the task has,
    nothing is renamed; otherwise the task is renamed to the trimmed text.
    In both cases the item leaves the edit.  On a value that is not a
    string it throws. *)
Theorem confirmEdit_keeps_session (task : obj) (it : item) (s : state) :
  in_session s ->
  (forall v : string,
     value it = PStr v ->
     exists s',
       confirmEdit task it s = Some (s', mkItem false (PStr v)) /\
       in_session s' /\
       (trim v = "" \/ get task "name" = PStr (trim v) -> s' = s) /\
       (trim v <> "" -> get task "name" <> PStr (trim v) ->
        s' = editTaskName (get task "id") (PStr (trim v)) s)) /\
  ((forall v : string, value it <> PStr v) -> confirmEdit task it s = None).
Proof.
  intros Hs. split.
  - intros v Hv. unfold confirmEdit. rewrite Hv.
    destruct (is_empty (trim v)) eqn:E.
    + exists s. cbn [negb andb]. split; [reflexivity |]. split; [exact Hs |].
      split; [reflexivity |]. intros Hne. apply is_empty_false in Hne. congruence.
    + cbn [negb andb]. apply is_empty_false in E.
      destruct (strict_eq (PStr (trim v)) (get task "name")) eqn:E'.
      * exists s. cbn [negb]. split; [reflexivity |]. split; [exact Hs |].
        split; [reflexivity |]. intros _ Hne. apply strict_eq_PStr in E'. contradiction.
      * eexists. cbn [negb]. split; [reflexivity |]. split.
        { apply (in_step _ s (EditName _ _));
            [exact Hs | now exists v | discriminate]. }
        split; [| reflexivity].
        intros [He | Hn]; [contradiction |].
        apply strict_eq_PStr in Hn. congruence.
  - intros Hv. unfold confirmEdit.
    destruct (value it) as [| | | | v]; try reflexivity.
    now destruct (Hv v).
Qed.

Lemma confirmEdit_keeps_session_witness :
  exists s',
    confirmEdit (mkTask "a" "Read" true 3) (edited (mkTask "a" "Read" true 3) "   ")
                (ticking 2)
      = Some (s', mkItem false (PStr "   ")) /\
    s' = ticking 2.
Proof.
  destruct (proj1 (confirmEdit_keeps_session (mkTask "a" "Read" true 3)
                     (edited (mkTask "a" "Read" true 3) "   ")
                     (ticking 2) (ticking_in_session 2)) "   " eq_refl)
    as (s' & Hc & _ & Hsame & _).
  exists s'. split; [exact Hc |]. apply Hsame. left. reflexivity.
Defined.

(** ** What the handlers leave alone *)

(** X20: a tick, a done toggle and a rename each touch one property of the
    tasks and nothing else of the list: apart from [pomodoros] for the
    tick, [done] for the toggle and [name] for the rename, the tasks after
    are the tasks before, one by one and in the same order. *)
Theorem handlers_touch_one_property (id name : prim) (s : state) :
  map (delete "pomodoros") (tasks (tick s)) = map (delete "pomodoros") (tasks s) /\
  map (delete "done") (tasks (toggleTaskDone id s)) = map (delete "done") (tasks s) /\
  map (delete "name") (tasks (editTaskName id name s)) = map (delete "name") (tasks s).
Proof.
  split; [| split].
  - unfold tick, tick_callback.
    destruct (isRunning s); [| reflexivity].
    destruct (gtb _ _); [reflexivity |].
    destruct (isWorkSession s && truthy (selectedTaskId s)); [| reflexivity].
    cbn [tasks setRemaining setIsWorkSession setTasks].
    rewrite List.map_map. apply List.map_ext. intros t. unfold credit.
    destruct (strict_eq _ _); [apply delete_insert_eq | reflexivity].
  - unfold toggleTaskDone. cbn [tasks setTasks].
    rewrite List.map_map. apply List.map_ext. intros t.
    destruct (strict_eq _ _); [apply delete_insert_eq | reflexivity].
  - unfold editTaskName. cbn [tasks setTasks].
    rewrite List.map_map. apply List.map_ext. intros t.
    destruct (strict_eq _ _); [apply delete_insert_eq | reflexivity].
Qed.

(** X22: for a task of a session, opening the edit and confirming it
    without a change of the text renames nothing: the name in the field is
    the name of the task, which is trimmed already. *)
Theorem confirm_without_change (task : obj) (s : state) :
  in_session s ->
  In task (tasks s) ->
  confirmEdit task (initial_item task) s = Some (s, mkItem false (get task "name")).
Proof.
  intros Hs Hin.
  destruct (in_session_well_formed s Hs) as (_ & Ht & _).
  destruct (proj1 (List.Forall_forall _ _) Ht task Hin)
    as (id & name & done & n & -> & Hname & Htrim & _).
  unfold confirmEdit, initial_item. cbn [value].
  rewrite (proj1 (proj2 (get_mkTask id name done n))).
  rewrite Htrim. cbn [strict_eq]. rewrite String.eqb_refl.
  now rewrite andb_false_r.
Qed.

Lemma confirm_without_change_witness :
  let task := mkTask "7f1c2d9e-0b6a-4c1e-9a57-3d2f8e4b6c10" "Write report" false 0 in
  confirmEdit task (initial_item task) (ticking 2)
  = Some (ticking 2, mkItem false (get task "name")).
Proof.
  intros task.
  apply (confirm_without_change task (ticking 2) (ticking_in_session 2)).
  vm_compute. left. reflexivity.
Defined.
